(** * HexSnake: board topology and tick transition of [src/App.tsx]

    A shallow embedding of the simulation core of the two-faced hexagonal
    snake game: coordinates and headings, the wrap-edge pairs, [getExitInfo],
    [generateFood] and the state update run by the game loop.

    JavaScript numbers that hold cell coordinates, faces, scores and counters
    are integers in every reachable state and are modelled by [Z].  The
    rendering code (SVG, pixel projection) is outside the embedding; the pixel
    projection used by the eat effect is a parameter of the session. *)

From Stdlib Require Import ZArith List String Bool Lia QArith Qround Permutation.
Import ListNotations.
Open Scope Z_scope.

(** ** Headings *)

(** [enum Direction]: six headings numbered 0..5. *)
Inductive Direction : Type :=
| RIGHT
| DOWN_RIGHT
| DOWN_LEFT
| LEFT
| UP_LEFT
| UP_RIGHT.

(** The numeric value the enum member has at run time. *)
Definition Direction_value (d : Direction) : Z :=
  match d with
  | RIGHT => 0
  | DOWN_RIGHT => 1
  | DOWN_LEFT => 2
  | LEFT => 3
  | UP_LEFT => 4
  | UP_RIGHT => 5
  end.

(** The cast [n as Direction].  The tick only casts values of the form
    [(t + 3) % 6] with [t] a table entry, so the last branch is never taken
    (see [Direction_of_value_inv]). *)
Definition Direction_of_value (n : Z) : Direction :=
  match n with
  | 0 => RIGHT
  | 1 => DOWN_RIGHT
  | 2 => DOWN_LEFT
  | 3 => LEFT
  | 4 => UP_LEFT
  | 5 => UP_RIGHT
  | _ => RIGHT
  end.

(** ** Cells, segments, food *)

(** [interface HexCoord]: axial coordinates. *)
Record HexCoord : Type := mkHex { q : Z; r : Z }.

(** [interface SnakeSegment extends HexCoord] adds the face.  [Food] has the
    same shape, and TypeScript's structural typing makes them one type. *)
Record SnakeSegment : Type := mkSeg { coord :> HexCoord; side : Z }.

Definition Food : Type := SnakeSegment.

Definition GRID_RADIUS : Z := 15.

(** [DIRECTION_VECTORS], indexed by the heading's value. *)
Definition DIRECTION_VECTORS : list HexCoord :=
  [ mkHex 1 0;       (* RIGHT *)
    mkHex 0 1;       (* DOWN_RIGHT *)
    mkHex (-1) 1;    (* DOWN_LEFT *)
    mkHex (-1) 0;    (* LEFT *)
    mkHex 0 (-1);    (* UP_LEFT *)
    mkHex 1 (-1) ].  (* UP_RIGHT *)

(** Array lookup [a[i]] for an index that is known to be in range; the
    default stands for [undefined] and is never produced by the callers
    below. *)
Definition lookup {A : Type} (a : list A) (i : Z) (undef : A) : A :=
  nth (Z.to_nat i) a undef.

Definition directionVector (direction : Direction) : HexCoord :=
  lookup DIRECTION_VECTORS (Direction_value direction) (mkHex 0 0).

(** [isValidPosition]: the three inequalities of the hexagonal board. *)
Definition isValidPosition (c : HexCoord) : bool :=
  (Z.abs (q c) <=? GRID_RADIUS) &&
  (Z.abs (r c) <=? GRID_RADIUS) &&
  (Z.abs (q c + r c) <=? GRID_RADIUS).

(** [getNextPosition]. *)
Definition getNextPosition (head : HexCoord) (direction : Direction) : HexCoord :=
  let vector := directionVector direction in
  mkHex (q head + q vector) (r head + r vector).

(** [isSameCoord]. *)
Definition isSameCoord (a b : HexCoord) : bool :=
  (q a =? q b) && (r a =? r b).

(** [isOnSnake]: [snake.some(...)]. *)
Definition isOnSnake (c : HexCoord) (s : Z) (snake : list SnakeSegment) : bool :=
  existsb (fun segment : SnakeSegment =>
             isSameCoord segment c && (side segment =? s))
          snake.

(** The values taken by [for (let i = lo; i <= hi; i++)]. *)
Definition for_range (lo hi : Z) : list Z :=
  map (fun i => lo + Z.of_nat i) (seq 0 (Z.to_nat (hi - lo + 1))).

(** [getValidHexCells]: the nested loops over [q] and [r]. *)
Definition getValidHexCells : list HexCoord :=
  flat_map
    (fun qq =>
       let r1 := Z.max (- GRID_RADIUS) (- qq - GRID_RADIUS) in
       let r2 := Z.min GRID_RADIUS (- qq + GRID_RADIUS) in
       map (fun rr => mkHex qq rr) (for_range r1 r2))
    (for_range (- GRID_RADIUS) GRID_RADIUS).

(** ** Wrap-edge pairs *)

Record EdgePair : Type := mkPair {
  name : string;
  checks : list (HexCoord -> bool)
}.

(** [WRAP_EDGE_PAIRS]. *)
Definition WRAP_EDGE_PAIRS : list EdgePair :=
  [ mkPair "horizontal"
      [ (fun c => q c =? - GRID_RADIUS); (fun c => q c =? GRID_RADIUS) ];
    mkPair "diagonal1"
      [ (fun c => r c =? GRID_RADIUS); (fun c => r c =? - GRID_RADIUS) ];
    mkPair "diagonal2"
      [ (fun c => - q c - r c =? GRID_RADIUS);
        (fun c => - q c - r c =? - GRID_RADIUS) ] ].

(** The values [Math.floor(Math.random() * 3)] can take. *)
Inductive WrapIndex : Type := Wrap0 | Wrap1 | Wrap2.

Definition WrapIndex_value (i : WrapIndex) : Z :=
  match i with Wrap0 => 0 | Wrap1 => 1 | Wrap2 => 2 end.

(** Heading-reflection tables of the tick. *)
Definition horizontalFlip : list Z := [3; 2; 1; 0; 5; 4].
Definition diagonal1Flip : list Z := [0; 5; 4; 3; 2; 1].
Definition diagonal2Flip : list Z := [4; 3; 2; 1; 0; 5].

(** ** Random source *)

(** One result of [Math.random()]: a number in [0, 1). *)
Record UnitDraw : Type := mkDraw {
  draw : Q;
  draw_range : (0 <= draw /\ draw < 1)%Q
}.

(** The sequence of results the following calls of [Math.random()] return. *)
Definition Rng : Type := nat -> UnitDraw.

Definition Math_random (g : Rng) : Q * Rng :=
  (draw (g O), fun n => g (S n)).

Section Session.

(** [FIXED_WRAP_PAIR_INDEX]: drawn once when the module is loaded. *)
Variable FIXED_WRAP_PAIR_INDEX : WrapIndex.

(** Screen coordinates are floating-point numbers computed by
    [hexToPixel]; the simulation only stores them. *)
Variable float : Type.
Variable hexToPixel : Z -> Z -> float * float.

Definition activeEdgePair : EdgePair :=
  lookup WRAP_EDGE_PAIRS (WrapIndex_value FIXED_WRAP_PAIR_INDEX)
         (mkPair EmptyString []).

(** [isWrapExit]. *)
Definition isWrapExit (c : HexCoord) : bool :=
  existsb (fun check => check c) (checks activeEdgePair).

(** [isOnAnyEdge]. *)
Definition isOnAnyEdge (c : HexCoord) : bool :=
  existsb (fun pair => existsb (fun check => check c) (checks pair))
          WRAP_EDGE_PAIRS.

(** The axis mirror, written twice in the source with the same branches:
    for the head in [getExitInfo] and for the food in the tick. *)
Definition mirrorCoord (c : HexCoord) : HexCoord :=
  if (name activeEdgePair =? "horizontal")%string then
    mkHex (- q c) (r c)
  else if (name activeEdgePair =? "diagonal1")%string then
    mkHex (q c) (- r c)
  else
    mkHex (- r c) (- q c).

(** The adjustment [getExitInfo] applies to the mirrored cell. *)
Definition adjustToCenter (newCoord : HexCoord) : HexCoord :=
  if negb (isValidPosition newCoord) then
    let centerVector :=
      mkHex (if q newCoord >? 0 then -1 else if q newCoord <? 0 then 1 else 0)
            (if r newCoord >? 0 then -1 else if r newCoord <? 0 then 1 else 0) in
    mkHex (q newCoord + q centerVector) (r newCoord + r centerVector)
  else newCoord.

Record ExitInfo : Type := mkExit {
  isWrap : bool;
  newCoord : option HexCoord
}.

(** [getExitInfo]. *)
Definition getExitInfo (c : HexCoord) (direction : Direction) : ExitInfo :=
  let vector := directionVector direction in
  let next := mkHex (q c + q vector) (r c + r vector) in
  if negb (isValidPosition next) then
    if isWrapExit c then
      let newCoord := adjustToCenter (mirrorCoord c) in
      mkExit true (Some newCoord)
    else mkExit false None
  else mkExit false None.

(** [generateFood].  [targetSide] is [None] when the argument is omitted.
    [Math.random()] is called only when a position is available. *)
Definition sidesToCheck (targetSide : option Z) : list Z :=
  match targetSide with Some t => [t] | None => [0; 1] end.

Definition availablePositions (snake : list SnakeSegment)
           (targetSide : option Z) : list Food :=
  flat_map
    (fun cell =>
       flat_map
         (fun s => if negb (isOnSnake cell s snake)
                   then [mkSeg cell s] else [])
         (sidesToCheck targetSide))
    getValidHexCells.

Definition generateFood (snake : list SnakeSegment) (targetSide : option Z)
           (g : Rng) : Food * Rng :=
  let available := availablePositions snake targetSide in
  if Z.of_nat (List.length available) =? 0 then (mkSeg (mkHex 0 0) 0, g)
  else
    let (u, g') := Math_random g in
    (lookup available
            (Qfloor (u * inject_Z (Z.of_nat (List.length available))))
            (mkSeg (mkHex 0 0) 0),
     g').

(** ** Game state *)

Record EatEffect : Type := mkEffect {
  x : float;
  y : float;
  active : bool;
  timestamp : Z
}.

Record GameState : Type := mkState {
  snake : list SnakeSegment;
  food : Food;
  direction : Direction;
  currentSide : Z;
  score : Z;
  gameOver : bool;
  isPlaying : bool;
  eatEffect : option EatEffect;
  wrapImmunity : Z
}.

(** [{ ...prev, gameOver: true, isPlaying: false }]. *)
Definition endGame (prev : GameState) : GameState :=
  mkState (snake prev) (food prev) (direction prev) (currentSide prev)
          (score prev) true false (eatEffect prev) (wrapImmunity prev).

(** The three outcomes of the branch
    [if (exitInfo.isWrap && exitInfo.newCoord) ... else if
    (!isValidPosition(nextCoord)) ... else ...] at the start of the tick. *)
Inductive StepOutcome : Type :=
| Normal
| Blocked
| Portal (mirroredCell : HexCoord).

Definition classifyStep (c : HexCoord) (heading : Direction) : StepOutcome :=
  let nextCoord := getNextPosition c heading in
  let exitInfo := getExitInfo c heading in
  match isWrap exitInfo, newCoord exitInfo with
  | true, Some mirrored => Portal mirrored
  | _, _ => if negb (isValidPosition nextCoord) then Blocked else Normal
  end.

(** The heading after a wrap: table lookup, then [(d + 3) % 6]. *)
Definition activeFlip : list Z :=
  if (name activeEdgePair =? "horizontal")%string then horizontalFlip
  else if (name activeEdgePair =? "diagonal1")%string then diagonal1Flip
  else diagonal2Flip.

(** The entry of the active table for a heading, as the tick reads it. *)
Definition flipEntry (d : Direction) : Z :=
  lookup activeFlip (Direction_value d) 0.

Definition wrapDirection (d : Direction) : Direction :=
  let flippedDirection := flipEntry d in
  Direction_of_value ((flippedDirection + 3) mod 6).

(** First part of the tick: [newHead], [newSide], [flipped] and
    [newDirection], or [None] when the head runs into a wall. *)
Definition moveHead (head : SnakeSegment) (heading : Direction)
  : option (SnakeSegment * Z * bool * Direction) :=
  let nextCoord := getNextPosition head heading in
  match classifyStep head heading with
  | Portal mirrored =>
    let newHead := mkSeg mirrored (1 - side head) in
    Some (newHead, side newHead, true, wrapDirection heading)
  | Blocked => None
  | Normal => Some (mkSeg nextCoord (side head), side head, false, heading)
  end.

(** The state update passed to [setGameState] by the game loop.  [now] is
    the value of [Date.now()].  The result is [None] when the update
    throws: [prev.snake[0]] is [undefined] for an empty snake.  The timer
    that clears the eat effect after 500 ms lives outside the state. *)
Definition tick (g : Rng) (now : Z) (prev : GameState)
  : option (GameState * Rng) :=
  match snake prev with
  | [] => None
  | head :: _ =>
    match moveHead head (direction prev) with
    | None => Some (endGame prev, g)
    | Some (newHead, newSide, flipped, newDirection) =>
      if isOnSnake newHead newSide (snake prev) then Some (endGame prev, g)
      else
        let newSnake := newHead :: snake prev in
        let newCurrentSide := if flipped then newSide else currentSide prev in
        let '(newFood, newWrapImmunity, g1) :=
          if flipped then
            let flippedFoodCoord := mirrorCoord (food prev) in
            if isValidPosition flippedFoodCoord then
              (mkSeg (mkHex (q flippedFoodCoord) (r flippedFoodCoord)) newSide,
               1, g)
            else
              let (f, g') := generateFood newSnake (Some newSide) g in
              (f, 1, g')
          else if wrapImmunity prev >? 0 then
            (food prev, wrapImmunity prev - 1, g)
          else (food prev, wrapImmunity prev, g) in
        if isSameCoord newHead (food prev) && (newSide =? side (food prev))
        then
          let (f, g2) := generateFood newSnake None g1 in
          let headPixel := hexToPixel (q newHead) (r newHead) in
          Some (mkState newSnake f newDirection
                        newCurrentSide (score prev + 10)
                        (gameOver prev) (isPlaying prev)
                        (Some (mkEffect (fst headPixel) (snd headPixel)
                                        true now))
                        newWrapImmunity,
                g2)
        else
          Some (mkState (removelast newSnake) newFood newDirection
                        newCurrentSide (score prev)
                        (gameOver prev) (isPlaying prev)
                        (eatEffect prev) newWrapImmunity,
                g1)
    end
  end.

End Session.

Arguments mkEffect {float} _ _ _ _.
Arguments x {float} _.
Arguments y {float} _.
Arguments active {float} _.
Arguments timestamp {float} _.
Arguments mkState {float} _ _ _ _ _ _ _ _ _.
Arguments snake {float} _.
Arguments food {float} _.
Arguments direction {float} _.
Arguments currentSide {float} _.
Arguments score {float} _.
Arguments gameOver {float} _.
Arguments isPlaying {float} _.
Arguments eatEffect {float} _.
Arguments wrapImmunity {float} _.
Arguments endGame {float} _.
Arguments tick _ {float} _ _ _ _.

(** Two states that differ at most in [wrapImmunity]. *)
Definition same_but_wrapImmunity {float : Type} (s1 s2 : GameState float) : Prop :=
  snake s1 = snake s2 /\ food s1 = food s2 /\ direction s1 = direction s2 /\
  currentSide s1 = currentSide s2 /\ score s1 = score s2 /\
  gameOver s1 = gameOver s2 /\ isPlaying s1 = isPlaying s2 /\
  eatEffect s1 = eatEffect s2.

(** Sample inputs for the examples: a random source that always returns
    one half, and an integer stand-in for the pixel projection. *)
Definition halfDraw : UnitDraw :=
  mkDraw (1 # 2) ltac:(split; vm_compute; [ discriminate | reflexivity ]).

Definition halfRng : Rng := fun _ => halfDraw.

Definition gridPixel (a b : Z) : Z * Z := (15 * a, 9 * a + 17 * b).

Definition initialSnake : list SnakeSegment :=
  [ mkSeg (mkHex 0 0) 0; mkSeg (mkHex (-1) 0) 0; mkSeg (mkHex (-2) 0) 0 ].

(** A running state built from a snake, a food and a heading. *)
Definition sampleState (body : list SnakeSegment) (f : Food) (d : Direction)
  : GameState Z :=
  mkState body f d 0 0 false true None 0.

(** A snake that lies on every on-board cell of one face. *)
Definition faceSnake (s : Z) : list SnakeSegment :=
  map (fun c => mkSeg c s) getValidHexCells.

(** The cell a wrap sends the head to: mirror, then adjust. *)
Definition portalTarget (i : WrapIndex) (c : HexCoord) : HexCoord :=
  adjustToCenter (mirrorCoord i c).

(** ** Session driver and input *)

(** The state set by [startGame]; [restartGame] is the same code.  The
    food is drawn by [generateFood] on the three-segment snake. *)
Definition startGame {float : Type} (g : Rng) : GameState float * Rng :=
  let (f, g') := generateFood initialSnake None g in
  (mkState initialSnake f RIGHT 0 0 false true None 0, g').

(** The state [useState] is initialised with: as [startGame], but not yet
    playing. *)
Definition initialGameState {float : Type} (g : Rng) : GameState float * Rng :=
  let (f, g') := generateFood initialSnake None g in
  (mkState initialSnake f RIGHT 0 0 false false None 0, g').

(** [handleKeyDown]: the arrow keys turn the heading by one step.  The
    listener tests [gameState.isPlaying] and [gameState.gameOver] of the
    render that registered it ([renderedPlaying], [renderedOver]) and
    returns without an update when that render was not playing or was over;
    the update itself works on [prev] and has no test of its own.  The
    listener is registered anew whenever one of the two flags changes. *)
Definition handleKeyDown {float : Type} (renderedPlaying renderedOver : bool)
           (key : string) (prev : GameState float)
  : GameState float :=
  if negb renderedPlaying || renderedOver then prev
  else
    let newDirection :=
      if (key =? "ArrowLeft")%string then
        Direction_of_value ((Direction_value (direction prev) + 5) mod 6)
      else if (key =? "ArrowRight")%string then
        Direction_of_value ((Direction_value (direction prev) + 1) mod 6)
      else direction prev in
    mkState (snake prev) (food prev) newDirection (currentSide prev)
            (score prev) (gameOver prev) (isPlaying prev) (eatEffect prev)
            (wrapImmunity prev).

(** The update run 500 ms after eating: [{ ...s, eatEffect: null }]. *)
Definition clearEatEffect {float : Type} (s : GameState float) : GameState float :=
  mkState (snake s) (food s) (direction s) (currentSide s) (score s)
          (gameOver s) (isPlaying s) None (wrapImmunity s).

(** What can happen to the state: the interval of the game loop fires (with
    the clock's value), a key goes down, the eat-effect timer fires, or the
    start or restart button is pressed.  A key event carries the two flags
    of the render whose listener handles it: they are those of the current
    state except between an update and the next render, and they are not
    restricted here. *)
Inductive Event : Type :=
| IntervalFires (now : Z)
| KeyDown (renderedPlaying renderedOver : bool) (key : string)
| EffectTimeout
| StartPressed.

Definition handleEvent (i : WrapIndex) {float : Type}
           (hexToPixel : Z -> Z -> float * float) (e : Event)
           (st : GameState float * Rng) : option (GameState float * Rng) :=
  match e with
  | IntervalFires now => tick i hexToPixel (snd st) now (fst st)
  | KeyDown renderedPlaying renderedOver key =>
    Some (handleKeyDown renderedPlaying renderedOver key (fst st), snd st)
  | EffectTimeout => Some (clearEatEffect (fst st), snd st)
  | StartPressed => Some (startGame (snd st))
  end.

(** A sequence of events, in order; [None] when one of the updates throws.
    The interval exists only while the game is playing, but the update does
    not look at the flags, so no such restriction is made here. *)
Fixpoint run (i : WrapIndex) {float : Type}
         (hexToPixel : Z -> Z -> float * float) (events : list Event)
         (st : GameState float * Rng) : option (GameState float * Rng) :=
  match events with
  | [] => Some st
  | e :: rest =>
    match handleEvent i hexToPixel e st with
    | Some st' => run i hexToPixel rest st'
    | None => None
    end
  end.

(** A session that brings the food under the tail: a random source whose
    every draw picks the last free position, (15,0) on face 1, and the
    events that take the head from the start through the horizontal wrap
    and round to the cell next to its own tail. *)
Definition lastPositionDraw : UnitDraw :=
  mkDraw (2877 # 2878) ltac:(split; vm_compute; [ discriminate | reflexivity ]).

Definition lastPositionRng : Rng := fun _ => lastPositionDraw.

Definition tailFoodEvents : list Event :=
  [ StartPressed ]
    ++ repeat (IntervalFires 0) 17
    ++ [ KeyDown true false "ArrowRight"; KeyDown true false "ArrowRight";
         IntervalFires 0;
         KeyDown true false "ArrowRight"; KeyDown true false "ArrowRight" ].

Definition tailFoodState : GameState Z :=
  mkState [ mkSeg (mkHex (-15) 1) 1; mkSeg (mkHex (-14) 0) 1;
            mkSeg (mkHex (-15) 0) 1 ]
          (mkSeg (mkHex (-15) 0) 1) UP_LEFT 1 0 false true None 0.

(** ** Rendering decisions *)

(** [snakeOnCell]: the segments on the displayed face. *)
Definition snakeOnCell {float : Type} (s : GameState float) : list SnakeSegment :=
  filter (fun seg : SnakeSegment => side seg =? currentSide s) (snake s).

(** [isSnakeHead]: [snakeOnCell[0] || { q: -999, r: -999 }]. *)
Definition isSnakeHead {float : Type} (cell : HexCoord) (s : GameState float)
  : bool :=
  isSameCoord cell
    (match snakeOnCell s with
     | seg :: _ => coord seg
     | [] => mkHex (-999) (-999)
     end).

(** ** Invariants of a session *)

Definition isFace (s : Z) : Prop := s = 0 \/ s = 1.

(** Ten points per segment grown: the snake starts with three segments. *)
Definition length_matches_score {float : Type} (s : GameState float) : Prop :=
  10 * Z.of_nat (List.length (snake s)) = 30 + score s.

(** The faces in the state are 0 or 1 and the displayed face is the face
    the head is on. *)
Definition faces_consistent {float : Type} (s : GameState float) : Prop :=
  Forall (fun seg : SnakeSegment => isFace (side seg)) (snake s) /\
  isFace (side (food s)) /\
  hd_error (map side (snake s)) = Some (currentSide s).

Definition session_invariant {float : Type} (s : GameState float) : Prop :=
  snake s <> [] /\
  NoDup (snake s) /\
  length_matches_score s /\
  faces_consistent s /\
  isValidPosition (food s) = true /\
  (wrapImmunity s = 0 \/ wrapImmunity s = 1).

(** Every segment is on the board. *)
Definition snake_on_board {float : Type} (s : GameState float) : Prop :=
  Forall (fun seg : SnakeSegment => isValidPosition seg = true) (snake s).

(** Case analysis on the branches of the tick. *)
Ltac split_tick_branches :=
  repeat match goal with
         | |- context [ if ?b then _ else _ ] =>
           match type of b with bool => destruct b end
         | |- context [ generateFood ?body ?t ?g ] =>
           destruct (generateFood body t g)
         end.

(** * Properties *)

(** ** Board geometry *)

Lemma isValidPosition_iff (c : HexCoord) :
  isValidPosition c = true <->
  Z.abs (q c) <= GRID_RADIUS /\ Z.abs (r c) <= GRID_RADIUS /\
  Z.abs (q c + r c) <= GRID_RADIUS.
Proof.
  unfold isValidPosition.
  rewrite !andb_true_iff, !Z.leb_le. tauto.
Qed.

Lemma isValidPosition_false_iff (c : HexCoord) :
  isValidPosition c = false <->
  GRID_RADIUS < Z.abs (q c) \/ GRID_RADIUS < Z.abs (r c) \/
  GRID_RADIUS < Z.abs (q c + r c).
Proof.
  unfold isValidPosition.
  rewrite !andb_false_iff, !Z.leb_gt. tauto.
Qed.

Lemma Direction_of_value_inv (d : Direction) :
  Direction_of_value (Direction_value d) = d.
Proof. destruct d; reflexivity. Qed.

Lemma Direction_value_range (d : Direction) : 0 <= Direction_value d < 6.
Proof. destruct d; simpl; lia. Qed.

Lemma Direction_value_of_value (n : Z) :
  0 <= n < 6 -> Direction_value (Direction_of_value n) = n.
Proof.
  intros Hn.
  assert (Hc : n = 0 \/ n = 1 \/ n = 2 \/ n = 3 \/ n = 4 \/ n = 5) by lia.
  repeat (destruct Hc as [-> | Hc]; [reflexivity |]).
  subst n; reflexivity.
Qed.

(** Every heading has its entry in [DIRECTION_VECTORS]. *)
Lemma directionVector_defined (d : Direction) :
  nth_error DIRECTION_VECTORS (Z.to_nat (Direction_value d))
  = Some (directionVector d).
Proof. destruct d; reflexivity. Qed.

(** The three indices select the three pairs of [WRAP_EDGE_PAIRS]. *)
Lemma activeEdgePair_defined (i : WrapIndex) :
  nth_error WRAP_EDGE_PAIRS (Z.to_nat (WrapIndex_value i))
  = Some (activeEdgePair i).
Proof. destruct i; reflexivity. Qed.

Lemma isWrapExit_edges (i : WrapIndex) (c : HexCoord) :
  isWrapExit i c =
  match i with
  | Wrap0 => (q c =? - GRID_RADIUS) || (q c =? GRID_RADIUS)
  | Wrap1 => (r c =? GRID_RADIUS) || (r c =? - GRID_RADIUS)
  | Wrap2 => (- q c - r c =? GRID_RADIUS) || (- q c - r c =? - GRID_RADIUS)
  end.
Proof.
  destruct i; unfold isWrapExit; simpl; rewrite orb_false_r; reflexivity.
Qed.

Lemma mirrorCoord_cases (i : WrapIndex) (c : HexCoord) :
  mirrorCoord i c =
  match i with
  | Wrap0 => mkHex (- q c) (r c)
  | Wrap1 => mkHex (q c) (- r c)
  | Wrap2 => mkHex (- r c) (- q c)
  end.
Proof. destruct i; reflexivity. Qed.

Lemma mirrorCoord_involutive (i : WrapIndex) (c : HexCoord) :
  mirrorCoord i (mirrorCoord i c) = c.
Proof.
  rewrite !mirrorCoord_cases.
  destruct i, c as [cq cr]; simpl; f_equal; lia.
Qed.

Lemma adjustToCenter_valid (c : HexCoord) :
  isValidPosition c = true -> adjustToCenter c = c.
Proof. intros H. unfold adjustToCenter. rewrite H. reflexivity. Qed.

(** ** Mirror transform *)

(** C5: the mirror transform of the active pair is [(q,r) -> (-q,r)] for
    the pair named horizontal, [(q,r) -> (q,-r)] for diagonal1 and
    [(q,r) -> (-r,-q)] for diagonal2, for every cell; a wrap sends the head
    to that cell after the adjustment toward the center. *)
Theorem mirror_transform_by_axis (c : HexCoord) :
  (name (activeEdgePair Wrap0) = "horizontal"%string /\
   mirrorCoord Wrap0 c = mkHex (- q c) (r c)) /\
  (name (activeEdgePair Wrap1) = "diagonal1"%string /\
   mirrorCoord Wrap1 c = mkHex (q c) (- r c)) /\
  (name (activeEdgePair Wrap2) = "diagonal2"%string /\
   mirrorCoord Wrap2 c = mkHex (- r c) (- q c)) /\
  (forall i h,
      newCoord (getExitInfo i c h) =
      if isWrap (getExitInfo i c h)
      then Some (adjustToCenter (mirrorCoord i c)) else None).
Proof.
  repeat split; try reflexivity.
  intros i h. unfold getExitInfo.
  destruct (negb (isValidPosition _)); [ | reflexivity ].
  destruct (isWrapExit i c); reflexivity.
Qed.

(** C8: on each of the three axes, applying the wrap's cell transform twice
    gives back the original cell whenever neither application has to adjust
    the mirrored cell toward the center. *)
Theorem mirror_twice_without_adjustment (i : WrapIndex) (c : HexCoord)
  (Hfirst : isValidPosition (mirrorCoord i c) = true)
  (Hsecond : isValidPosition (mirrorCoord i (portalTarget i c)) = true) :
  portalTarget i (portalTarget i c) = c.
Proof.
  unfold portalTarget in *.
  rewrite (adjustToCenter_valid _ Hfirst) in *.
  rewrite (adjustToCenter_valid _ Hsecond).
  apply mirrorCoord_involutive.
Qed.

Lemma mirror_twice_without_adjustment_witness :
  portalTarget Wrap0 (portalTarget Wrap0 (mkHex 15 0)) = mkHex 15 0 /\
  portalTarget Wrap1 (portalTarget Wrap1 (mkHex 0 (-15))) = mkHex 0 (-15) /\
  portalTarget Wrap2 (portalTarget Wrap2 (mkHex (-7) (-8))) = mkHex (-7) (-8).
Proof.
  split; [ | split ];
    apply mirror_twice_without_adjustment; reflexivity.
Defined.

(** ** Heading reflection *)

Lemma activeFlip_cases (i : WrapIndex) :
  activeFlip i =
  match i with
  | Wrap0 => horizontalFlip
  | Wrap1 => diagonal1Flip
  | Wrap2 => diagonal2Flip
  end.
Proof. destruct i; reflexivity. Qed.

Lemma flipEntry_defined (i : WrapIndex) (d : Direction) :
  nth_error (activeFlip i) (Z.to_nat (Direction_value d))
  = Some (flipEntry i d).
Proof. destruct i, d; reflexivity. Qed.

Lemma flip_table_permutation (i : WrapIndex) :
  Permutation (activeFlip i) [0; 1; 2; 3; 4; 5].
Proof.
  rewrite activeFlip_cases.
  destruct i; apply NoDup_Permutation;
    try (repeat constructor; simpl; intuition lia);
    try (intros n; simpl; intuition lia).
Qed.

(** C4, as claimed, fails: under the horizontal table heading 0 is sent to
    3 and the inversion brings it back to 0. *)
Lemma flip_then_invert_fixes_RIGHT :
  ~ (forall (i : WrapIndex) (d : Direction),
        (flipEntry i d + 3) mod 6 <> Direction_value d).
Proof.
  intros H. apply (H Wrap0 RIGHT). reflexivity.
Qed.

(** C4 (amended): each of the three tables is a permutation of 0..5; the
    reflection followed by the inversion [(t + 3) mod 6] has no fixed heading
    under the diagonal1 and diagonal2 tables, and under the horizontal table
    it fixes exactly the headings 0 (RIGHT) and 3 (LEFT). *)
Theorem flip_tables_permutations_and_fixed_points :
  (forall i, Permutation (activeFlip i) [0; 1; 2; 3; 4; 5]) /\
  (forall d, (flipEntry Wrap1 d + 3) mod 6 <> Direction_value d) /\
  (forall d, (flipEntry Wrap2 d + 3) mod 6 <> Direction_value d) /\
  (forall d, (flipEntry Wrap0 d + 3) mod 6 = Direction_value d <->
             d = RIGHT \/ d = LEFT) /\
  (forall i d, Direction_value (wrapDirection i d) = (flipEntry i d + 3) mod 6).
Proof.
  split; [ exact flip_table_permutation | ].
  split; [ intros d; destruct d; vm_compute; discriminate | ].
  split; [ intros d; destruct d; vm_compute; discriminate | ].
  split.
  - intros d; destruct d; vm_compute; split; intros H;
      try discriminate; auto;
      destruct H as [H | H]; discriminate.
  - intros i d; destruct i, d; reflexivity.
Qed.

(** ** Step classification *)

Lemma getNextPosition_add (c : HexCoord) (h : Direction) :
  getNextPosition c h =
  mkHex (q c + q (directionVector h)) (r c + r (directionVector h)).
Proof. reflexivity. Qed.

Lemma classifyStep_eq (i : WrapIndex) (c : HexCoord) (h : Direction) :
  classifyStep i c h =
  if isValidPosition (getNextPosition c h) then Normal
  else if isWrapExit i c then Portal (portalTarget i c)
       else Blocked.
Proof.
  unfold classifyStep, getExitInfo, portalTarget.
  rewrite <- getNextPosition_add.
  destruct (isValidPosition (getNextPosition c h)); simpl; [ reflexivity | ].
  destruct (isWrapExit i c); reflexivity.
Qed.

(** C2: the step is Normal exactly when the next cell is on the board; with
    the next cell off the board it is a Portal, carrying the mirrored cell,
    exactly when the current cell satisfies one of the two edge checks of
    the active pair, and Blocked otherwise. *)
Theorem classifyStep_outcomes (i : WrapIndex) (c : HexCoord) (h : Direction) :
  let next := mkHex (q c + q (directionVector h)) (r c + r (directionVector h)) in
  (classifyStep i c h = Normal <-> isValidPosition next = true) /\
  ((exists m, classifyStep i c h = Portal m) <->
   isValidPosition next = false /\ isWrapExit i c = true) /\
  (classifyStep i c h = Portal (portalTarget i c) <->
   isValidPosition next = false /\ isWrapExit i c = true) /\
  (classifyStep i c h = Blocked <->
   isValidPosition next = false /\ isWrapExit i c = false) /\
  (isWrapExit i c = true <->
   exists check, In check (checks (activeEdgePair i)) /\ check c = true).
Proof.
  intros next. rewrite classifyStep_eq, getNextPosition_add. fold next.
  split; [ | split; [ | split; [ | split; [ | apply existsb_exists ] ] ] ];
    destruct (isValidPosition next), (isWrapExit i c);
    split; try discriminate; try tauto;
    try (intros [m Hm]; discriminate);
    try (intros [? ?]; discriminate);
    try (intros _; eexists; reflexivity).
Qed.

(** ** Portal target *)

(** Under diagonal2 the mirror of an on-board cell is on the board. *)
Lemma portalTarget_valid_diagonal2 (c : HexCoord) :
  isValidPosition c = true -> isValidPosition (portalTarget Wrap2 c) = true.
Proof.
  intros H.
  assert (Hm : isValidPosition (mirrorCoord Wrap2 c) = true).
  { rewrite mirrorCoord_cases. apply isValidPosition_iff in H.
    apply isValidPosition_iff. simpl. unfold GRID_RADIUS in *. lia. }
  unfold portalTarget. rewrite (adjustToCenter_valid _ Hm). exact Hm.
Qed.

(** C1 fails on the code: with the horizontal pair active, the on-board edge
    cell (15,-5) heading RIGHT leaves the board, the step is a Portal, and
    the cell it returns, (-14,-4), is off the board: the mirror (-15,-5) is
    off-board and one step toward the center does not bring it back. *)
Theorem portal_target_off_board :
  isValidPosition (mkHex 15 (-5)) = true /\
  isWrapExit Wrap0 (mkHex 15 (-5)) = true /\
  isValidPosition (getNextPosition (mkHex 15 (-5)) RIGHT) = false /\
  mirrorCoord Wrap0 (mkHex 15 (-5)) = mkHex (-15) (-5) /\
  getExitInfo Wrap0 (mkHex 15 (-5)) RIGHT = mkExit true (Some (mkHex (-14) (-4))) /\
  classifyStep Wrap0 (mkHex 15 (-5)) RIGHT = Portal (mkHex (-14) (-4)) /\
  isValidPosition (mkHex (-14) (-4)) = false.
Proof. repeat split. Qed.

(** ** The tick *)

Lemma isOnSnake_In (seg : SnakeSegment) (body : list SnakeSegment) :
  In seg body -> isOnSnake seg (side seg) body = true.
Proof.
  intros Hin. unfold isOnSnake. apply existsb_exists.
  exists seg. split; [ exact Hin | ].
  unfold isSameCoord. rewrite !Z.eqb_refl. reflexivity.
Qed.

Lemma last_In {A : Type} (l : list A) (d : A) : l <> [] -> In (last l d) l.
Proof.
  intros Hne. rewrite (app_removelast_last d Hne) at 2.
  apply in_or_app. right. left. reflexivity.
Qed.

Lemma removelast_cons_length {A : Type} (a : A) (l : list A) :
  List.length (removelast (a :: l)) = List.length l.
Proof.
  revert a. induction l as [ | b l IH ]; intros a; [ reflexivity | ].
  change (removelast (a :: b :: l)) with (a :: removelast (b :: l)).
  change (S (List.length (removelast (b :: l))) = S (List.length l)).
  rewrite IH. reflexivity.
Qed.

Lemma moveHead_blocked (i : WrapIndex) (head : SnakeSegment) (h : Direction) :
  isValidPosition (getNextPosition head h) = false ->
  isWrapExit i head = false ->
  moveHead i head h = None.
Proof.
  intros Hnext Hexit. unfold moveHead.
  rewrite classifyStep_eq, Hnext, Hexit. reflexivity.
Qed.

Lemma moveHead_normal (i : WrapIndex) (head : SnakeSegment) (h : Direction) :
  isValidPosition (getNextPosition head h) = true ->
  moveHead i head h
  = Some (mkSeg (getNextPosition head h) (side head), side head, false, h).
Proof.
  intros Hnext. unfold moveHead.
  rewrite classifyStep_eq, Hnext. reflexivity.
Qed.

Lemma moveHead_newSide (i : WrapIndex) (head : SnakeSegment) (h : Direction)
      newHead newSide flipped newDirection :
  moveHead i head h = Some (newHead, newSide, flipped, newDirection) ->
  newSide = side newHead.
Proof.
  unfold moveHead. destruct (classifyStep i head h); intros H;
    inversion H; reflexivity.
Qed.

(** C6: when the head's next cell is off the board and the head is not on
    an edge of the active pair, the tick returns the previous state with
    [gameOver] set and [isPlaying] cleared; snake, food, heading, score,
    displayed face, wrap immunity and eat effect are the previous ones, and
    no random number is drawn. *)
Theorem tick_blocked_ends_game (i : WrapIndex) (float : Type)
        (hexToPixel : Z -> Z -> float * float) (g : Rng) (now : Z)
        (prev : GameState float) (head : SnakeSegment)
        (rest : list SnakeSegment)
        (Hsnake : snake prev = head :: rest)
        (Hnext : isValidPosition (getNextPosition head (direction prev)) = false)
        (Hexit : isWrapExit i head = false) :
  exists s',
    tick i hexToPixel g now prev = Some (s', g) /\
    gameOver s' = true /\ isPlaying s' = false /\
    snake s' = snake prev /\ food s' = food prev /\
    direction s' = direction prev /\ score s' = score prev /\
    currentSide s' = currentSide prev /\
    wrapImmunity s' = wrapImmunity prev /\
    eatEffect s' = eatEffect prev.
Proof.
  exists (endGame prev). unfold tick.
  rewrite Hsnake, (moveHead_blocked i _ _ Hnext Hexit).
  simpl. rewrite Hsnake. repeat split; reflexivity.
Qed.

(** C10: when the head's next cell is on the board and is the cell and face
    of the last segment, the tick ends the game: the new head is tested
    against the whole previous body, tail included. *)
Theorem tick_into_tail_ends_game (i : WrapIndex) (float : Type)
        (hexToPixel : Z -> Z -> float * float) (g : Rng) (now : Z)
        (prev : GameState float) (head : SnakeSegment)
        (rest : list SnakeSegment)
        (Hsnake : snake prev = head :: rest)
        (Hnext : isValidPosition (getNextPosition head (direction prev)) = true)
        (Htail : last (snake prev) head
                 = mkSeg (getNextPosition head (direction prev)) (side head)) :
  exists s',
    tick i hexToPixel g now prev = Some (s', g) /\
    gameOver s' = true /\ isPlaying s' = false /\
    snake s' = snake prev /\ score s' = score prev.
Proof.
  exists (endGame prev). unfold tick.
  rewrite Hsnake, (moveHead_normal i _ _ Hnext).
  assert (Hon : isOnSnake
                  (mkSeg (getNextPosition head (direction prev)) (side head))
                  (side head) (head :: rest) = true).
  { rewrite <- Hsnake, <- Htail.
    replace (side head) with (side (last (snake prev) head))
      by (rewrite Htail; reflexivity).
    apply isOnSnake_In, last_In. rewrite Hsnake. discriminate. }
  rewrite Hon. simpl. rewrite Hsnake. repeat split; reflexivity.
Qed.

Lemma tick_blocked_ends_game_witness :
  exists s',
    tick Wrap0 gridPixel halfRng 1000
         (sampleState [ mkSeg (mkHex 0 15) 0; mkSeg (mkHex 0 14) 0;
                        mkSeg (mkHex 0 13) 0 ]
                      (mkSeg (mkHex 3 3) 0) DOWN_RIGHT)
    = Some (s', halfRng) /\
    gameOver s' = true /\ isPlaying s' = false /\
    snake s' = [ mkSeg (mkHex 0 15) 0; mkSeg (mkHex 0 14) 0;
                 mkSeg (mkHex 0 13) 0 ] /\
    food s' = mkSeg (mkHex 3 3) 0 /\
    direction s' = DOWN_RIGHT /\ score s' = 0 /\
    currentSide s' = 0 /\
    wrapImmunity s' = 0 /\
    eatEffect s' = None.
Proof.
  apply (tick_blocked_ends_game Wrap0 Z gridPixel halfRng 1000
           (sampleState [ mkSeg (mkHex 0 15) 0; mkSeg (mkHex 0 14) 0;
                          mkSeg (mkHex 0 13) 0 ]
                        (mkSeg (mkHex 3 3) 0) DOWN_RIGHT)
           (mkSeg (mkHex 0 15) 0)
           [ mkSeg (mkHex 0 14) 0; mkSeg (mkHex 0 13) 0 ]);
    reflexivity.
Defined.

Lemma tick_into_tail_ends_game_witness :
  exists s',
    tick Wrap1 gridPixel halfRng 1000
         (sampleState [ mkSeg (mkHex 0 1) 0; mkSeg (mkHex 1 0) 0;
                        mkSeg (mkHex 0 0) 0 ]
                      (mkSeg (mkHex 3 3) 0) UP_LEFT)
    = Some (s', halfRng) /\
    gameOver s' = true /\ isPlaying s' = false /\
    snake s' = [ mkSeg (mkHex 0 1) 0; mkSeg (mkHex 1 0) 0;
                 mkSeg (mkHex 0 0) 0 ] /\
    score s' = 0.
Proof.
  apply (tick_into_tail_ends_game Wrap1 Z gridPixel halfRng 1000
           (sampleState [ mkSeg (mkHex 0 1) 0; mkSeg (mkHex 1 0) 0;
                          mkSeg (mkHex 0 0) 0 ]
                        (mkSeg (mkHex 3 3) 0) UP_LEFT)
           (mkSeg (mkHex 0 1) 0)
           [ mkSeg (mkHex 1 0) 0; mkSeg (mkHex 0 0) 0 ]);
    reflexivity.
Defined.

(** The state [tailFoodState] is reached in a session with the horizontal
    pair: the wrap carries the food under the new head, and three ticks
    later the food lies under the tail, next to the head. *)
Lemma tailFoodState_reachable :
  exists g',
    run Wrap0 gridPixel tailFoodEvents (initialGameState lastPositionRng)
    = Some (tailFoodState, g').
Proof. eexists. vm_compute. reflexivity. Qed.

(** C3, as claimed, fails for a running state in which the food lies on a
    segment of the body: in [tailFoodState] the new head is on the cell and
    face of the food, which is also the tail's, and the tick ends the game
    with the score unchanged. *)
Lemma eating_on_tail_ends_game :
  ~ (forall (i : WrapIndex) (g : Rng) (now : Z) (prev : GameState Z)
            (head : SnakeSegment) (rest : list SnakeSegment)
            (newHead : SnakeSegment) (newSide : Z) (flipped : bool)
            (newDirection : Direction),
        isPlaying prev = true -> gameOver prev = false ->
        snake prev = head :: rest ->
        moveHead i head (direction prev)
        = Some (newHead, newSide, flipped, newDirection) ->
        isSameCoord newHead (food prev)
        && (side newHead =? side (food prev)) = true ->
        exists s' g',
          tick i gridPixel g now prev = Some (s', g') /\
          score s' = score prev + 10 /\
          List.length (snake s') = S (List.length (snake prev))).
Proof.
  intros H.
  destruct (H Wrap0 halfRng 1000 tailFoodState
              (mkSeg (mkHex (-15) 1) 1)
              [ mkSeg (mkHex (-14) 0) 1; mkSeg (mkHex (-15) 0) 1 ]
              (mkSeg (mkHex (-15) 0) 1) 1 false UP_LEFT)
    as (s' & g' & Htick & Hscore & _); try reflexivity.
  assert (Hover : tick Wrap0 gridPixel halfRng 1000 tailFoodState
                  = Some (endGame tailFoodState, halfRng))
    by reflexivity.
  rewrite Hover in Htick. inversion Htick; subst s'.
  cbn in Hscore. discriminate Hscore.
Qed.

(** C3 (amended): a tick that is not fatal (the head moves, and the new head
    is on no segment of the previous body) returns a state; when the new
    head is on the cell and face of the food, the score grows by 10 and the
    snake by one segment; otherwise both stay as they were.  In both cases
    the new head is the first segment and the lifecycle flags are
    unchanged. *)
Theorem tick_score_and_length (i : WrapIndex) (float : Type)
        (hexToPixel : Z -> Z -> float * float) (g : Rng) (now : Z)
        (prev : GameState float) (head : SnakeSegment)
        (rest : list SnakeSegment)
        (newHead : SnakeSegment) (newSide : Z) (flipped : bool)
        (newDirection : Direction)
        (Hsnake : snake prev = head :: rest)
        (Hmove : moveHead i head (direction prev)
                 = Some (newHead, newSide, flipped, newDirection))
        (Hfree : isOnSnake newHead newSide (snake prev) = false) :
  exists s' g',
    tick i hexToPixel g now prev = Some (s', g') /\
    gameOver s' = gameOver prev /\ isPlaying s' = isPlaying prev /\
    hd_error (snake s') = Some newHead /\
    if isSameCoord newHead (food prev) && (side newHead =? side (food prev))
    then score s' = score prev + 10 /\
         List.length (snake s') = S (List.length (snake prev))
    else score s' = score prev /\
         List.length (snake s') = List.length (snake prev).
Proof.
  pose proof (moveHead_newSide _ _ _ _ _ _ _ Hmove) as Hside. subst newSide.
  unfold tick. rewrite Hsnake, Hmove. rewrite Hsnake in Hfree. rewrite Hfree.
  match goal with
  | |- context [ match ?e with (_, _) => _ end ] =>
    destruct e as [[newFood newWrapImmunity] g1]
  end.
  destruct (isSameCoord newHead (food prev) && (side newHead =? side (food prev))).
  - destruct (generateFood (newHead :: head :: rest) None g1) as [f g2].
    eexists; eexists; split; [ reflexivity | ].
    simpl. repeat split; reflexivity.
  - eexists; eexists; split; [ reflexivity | ].
    cbn [snake score gameOver isPlaying].
    rewrite removelast_cons_length.
    repeat split; reflexivity.
Qed.

Lemma tick_score_and_length_witness :
  (exists s' g',
      tick Wrap0 gridPixel halfRng 1000
           (sampleState initialSnake (mkSeg (mkHex 1 0) 0) RIGHT)
      = Some (s', g') /\
      gameOver s' = false /\ isPlaying s' = true /\
      hd_error (snake s') = Some (mkSeg (mkHex 1 0) 0) /\
      score s' = 0 + 10 /\ List.length (snake s') = 4%nat) /\
  (exists s' g',
      tick Wrap0 gridPixel halfRng 1000
           (sampleState initialSnake (mkSeg (mkHex 5 5) 1) RIGHT)
      = Some (s', g') /\
      gameOver s' = false /\ isPlaying s' = true /\
      hd_error (snake s') = Some (mkSeg (mkHex 1 0) 0) /\
      score s' = 0 /\ List.length (snake s') = 3%nat).
Proof.
  split.
  - apply (tick_score_and_length Wrap0 Z gridPixel halfRng 1000
             (sampleState initialSnake (mkSeg (mkHex 1 0) 0) RIGHT)
             (mkSeg (mkHex 0 0) 0)
             [ mkSeg (mkHex (-1) 0) 0; mkSeg (mkHex (-2) 0) 0 ]
             (mkSeg (mkHex 1 0) 0) 0 false RIGHT);
      reflexivity.
  - apply (tick_score_and_length Wrap0 Z gridPixel halfRng 1000
             (sampleState initialSnake (mkSeg (mkHex 5 5) 1) RIGHT)
             (mkSeg (mkHex 0 0) 0)
             [ mkSeg (mkHex (-1) 0) 0; mkSeg (mkHex (-2) 0) 0 ]
             (mkSeg (mkHex 1 0) 0) 0 false RIGHT);
      reflexivity.
Defined.

(** ** Wrap immunity *)

(** C9: two states that differ only in the wrap-immunity counter, ticked
    with the same random source and clock, give states that again differ at
    most in that counter, and leave the random source in the same place.
    The counter decides neither wall collision, self-collision, wrap nor
    eating. *)
Theorem tick_ignores_wrapImmunity (i : WrapIndex) (float : Type)
        (hexToPixel : Z -> Z -> float * float) (g : Rng) (now : Z)
        (s1 s2 : GameState float)
        (Hsame : same_but_wrapImmunity s1 s2) :
  match tick i hexToPixel g now s1, tick i hexToPixel g now s2 with
  | Some (t1, g1), Some (t2, g2) => same_but_wrapImmunity t1 t2 /\ g1 = g2
  | None, None => True
  | _, _ => False
  end.
Proof.
  destruct s1 as [body1 food1 dir1 cur1 score1 over1 play1 eff1 w1].
  destruct s2 as [body2 food2 dir2 cur2 score2 over2 play2 eff2 w2].
  unfold same_but_wrapImmunity in Hsame. simpl in Hsame.
  destruct Hsame as (-> & -> & -> & -> & -> & -> & -> & ->).
  unfold tick. simpl.
  destruct body2 as [ | head rest ]; [ exact I | ].
  destruct (moveHead i head dir2) as [ [[[newHead newSide] flipped] newDir] | ];
    cbv beta iota; [ | split; [ repeat split | reflexivity ] ].
  destruct (isOnSnake newHead newSide (head :: rest));
    [ split; [ repeat split | reflexivity ] | ].
  destruct flipped.
  - split_tick_branches; cbv beta iota;
      (split; [ repeat split | reflexivity ]).
  - destruct (w1 >? 0), (w2 >? 0); split_tick_branches; cbv beta iota;
      (split; [ repeat split | reflexivity ]).
Qed.

Lemma tick_ignores_wrapImmunity_witness :
  match tick Wrap0 gridPixel halfRng 1000
             (mkState initialSnake (mkSeg (mkHex 1 0) 0) RIGHT 0 0
                      false true None 0),
        tick Wrap0 gridPixel halfRng 1000
             (mkState initialSnake (mkSeg (mkHex 1 0) 0) RIGHT 0 0
                      false true None 1)
  with
  | Some (t1, g1), Some (t2, g2) => same_but_wrapImmunity t1 t2 /\ g1 = g2
  | None, None => True
  | _, _ => False
  end.
Proof.
  apply (tick_ignores_wrapImmunity Wrap0 Z gridPixel halfRng 1000
           (mkState initialSnake (mkSeg (mkHex 1 0) 0) RIGHT 0 0
                    false true None 0)
           (mkState initialSnake (mkSeg (mkHex 1 0) 0) RIGHT 0 0
                    false true None 1)).
  repeat split.
Defined.

(** ** Food placement *)

Lemma for_range_In (lo hi z : Z) : In z (for_range lo hi) <-> lo <= z <= hi.
Proof.
  unfold for_range. rewrite in_map_iff. split.
  - intros (k & <- & Hk). apply in_seq in Hk. lia.
  - intros Hz. exists (Z.to_nat (z - lo)). split; [ lia | ].
    apply in_seq. lia.
Qed.

Lemma getValidHexCells_In (c : HexCoord) :
  In c getValidHexCells <-> isValidPosition c = true.
Proof.
  unfold getValidHexCells. rewrite in_flat_map, isValidPosition_iff.
  unfold GRID_RADIUS. split.
  - intros (qq & Hq & Hc). apply for_range_In in Hq.
    apply in_map_iff in Hc. destruct Hc as (rr & <- & Hr).
    apply for_range_In in Hr. simpl. lia.
  - intros H. exists (q c). split; [ apply for_range_In; lia | ].
    apply in_map_iff. exists (r c). split; [ destruct c; reflexivity | ].
    apply for_range_In. lia.
Qed.

Lemma availablePositions_In (body : list SnakeSegment) (targetSide : option Z)
      (p : Food) :
  In p (availablePositions body targetSide) <->
  isValidPosition p = true /\ In (side p) (sidesToCheck targetSide) /\
  isOnSnake p (side p) body = false.
Proof.
  unfold availablePositions. rewrite in_flat_map. split.
  - intros (cell & Hcell & Hp). apply getValidHexCells_In in Hcell.
    apply in_flat_map in Hp. destruct Hp as (s & Hs & Hp).
    destruct (isOnSnake cell s body) eqn:Hon; simpl in Hp;
      [ contradiction | ].
    destruct Hp as [ <- | [] ]. simpl. auto.
  - intros (Hvalid & Hs & Hon). exists (coord p).
    split; [ apply getValidHexCells_In; exact Hvalid | ].
    apply in_flat_map. exists (side p). split; [ exact Hs | ].
    rewrite Hon. simpl. left. destruct p; reflexivity.
Qed.

(** [Math.floor(Math.random() * n)] is an index below [n]. *)
Lemma random_index_in_range (u : UnitDraw) (n : Z) :
  0 < n -> 0 <= Qfloor (draw u * inject_Z n) < n.
Proof.
  intros Hn. destruct u as [v [Hlo Hhi]]. cbn [draw].
  assert (Hn' : (0 < inject_Z n)%Q).
  { change (inject_Z 0 < inject_Z n)%Q. rewrite <- Zlt_Qlt. exact Hn. }
  pose proof (Qfloor_le (v * inject_Z n)) as Hfloor.
  split.
  - change 0 with (Qfloor 0). apply Qfloor_resp_le.
    apply Qmult_le_0_compat; [ exact Hlo | apply Qlt_le_weak; exact Hn' ].
  - rewrite Zlt_Qlt.
    apply Qle_lt_trans with (y := (v * inject_Z n)%Q); [ exact Hfloor | ].
    rewrite <- (Qmult_1_l (inject_Z n)) at 2.
    apply Qmult_lt_compat_r; assumption.
Qed.

Lemma generateFood_empty (body : list SnakeSegment) (targetSide : option Z)
      (g : Rng) :
  availablePositions body targetSide = [] ->
  generateFood body targetSide g = (mkSeg (mkHex 0 0) 0, g).
Proof. intros H. unfold generateFood. rewrite H. reflexivity. Qed.

Lemma generateFood_In (body : list SnakeSegment) (targetSide : option Z)
      (g : Rng) :
  availablePositions body targetSide <> [] ->
  In (fst (generateFood body targetSide g)) (availablePositions body targetSide).
Proof.
  intros Hne. unfold generateFood.
  set (available := availablePositions body targetSide) in *.
  assert (Hlen : 0 < Z.of_nat (List.length available))
    by (destruct available; [ congruence | simpl; lia ]).
  destruct (Z.of_nat (List.length available) =? 0) eqn:Hz;
    [ apply Z.eqb_eq in Hz; lia | ].
  unfold Math_random, lookup. cbv beta iota. cbn [fst].
  pose proof (random_index_in_range (g O) _ Hlen) as Hidx.
  apply nth_In. lia.
Qed.

(** C7, as claimed, fails for a call restricted to a face: a snake lying on
    every cell of face 0 and on no cell of face 1 does not cover both faces,
    yet [generateFood] restricted to face 0 finds no free position and
    returns the origin on face 0, which the snake occupies. *)
Lemma generateFood_restricted_returns_occupied :
  ~ (forall (body : list SnakeSegment) (targetSide : option Z) (g : Rng),
        (exists c s, isValidPosition c = true /\ In s [0; 1] /\
                     isOnSnake c s body = false) ->
        isOnSnake (fst (generateFood body targetSide g))
                  (side (fst (generateFood body targetSide g))) body = false).
Proof.
  intros H.
  specialize (H (faceSnake 0) (Some 0) halfRng).
  assert (Hfree : exists c s, isValidPosition c = true /\ In s [0; 1] /\
                              isOnSnake c s (faceSnake 0) = false).
  { exists (mkHex 0 0), 1. split; [ reflexivity | ].
    split; [ right; left; reflexivity | ]. vm_compute. reflexivity. }
  specialize (H Hfree). vm_compute in H. discriminate H.
Qed.

(** C7 (amended): the positions [generateFood] enumerates are the on-board
    cells on the faces it checks (the given face, or both) that the snake
    does not occupy; there is one exactly when the snake leaves an on-board
    cell free on a checked face.  When there is one, the result is one of
    them, hence not on the snake; when there is none, the result is the
    origin on face 0 and no random number is drawn. *)
Theorem generateFood_unoccupied (body : list SnakeSegment)
        (targetSide : option Z) (g : Rng) :
  let available := availablePositions body targetSide in
  let f := fst (generateFood body targetSide g) in
  (forall p, In p available <->
             isValidPosition p = true /\
             In (side p) (sidesToCheck targetSide) /\
             isOnSnake p (side p) body = false) /\
  (available <> [] <->
   exists c s, isValidPosition c = true /\
               In s (sidesToCheck targetSide) /\
               isOnSnake c s body = false) /\
  ((available = [] /\
    generateFood body targetSide g = (mkSeg (mkHex 0 0) 0, g)) \/
   (available <> [] /\ In f available /\
    isValidPosition f = true /\ isOnSnake f (side f) body = false)).
Proof.
  intros available f.
  split; [ intros p; apply availablePositions_In | ].
  split.
  - split.
    + intros Hne. destruct available as [ | p rest ] eqn:Hav;
        [ congruence | ].
      assert (Hp : In p (availablePositions body targetSide))
        by (fold available; rewrite Hav; left; reflexivity).
      apply availablePositions_In in Hp.
      exists (coord p), (side p). exact Hp.
    + intros (c & s & Hvalid & Hs & Hon) Hempty.
      assert (Hp : In (mkSeg c s) available)
        by (apply availablePositions_In; simpl; auto).
      rewrite Hempty in Hp. exact Hp.
  - destruct available as [ | p rest ] eqn:Hav.
    + left. split; [ reflexivity | ].
      apply generateFood_empty. exact Hav.
    + right.
      assert (Hne : availablePositions body targetSide <> [])
        by (fold available; rewrite Hav; discriminate).
      pose proof (generateFood_In body targetSide g Hne) as Hin.
      fold f in Hin. fold available in Hin. rewrite Hav in Hin.
      split; [ discriminate | ]. split; [ exact Hin | ].
      rewrite <- Hav in Hin. apply availablePositions_In in Hin. tauto.
Qed.

(** * Further properties of the board *)

Lemma for_range_NoDup (lo hi : Z) : NoDup (for_range lo hi).
Proof.
  unfold for_range. apply Finite.Injective_map_NoDup; [ | apply seq_NoDup ].
  intros a b Hab. lia.
Qed.

Lemma NoDup_flat_map_disjoint {A B : Type} (f : A -> list B) (l : list A) :
  NoDup l ->
  (forall a, In a l -> NoDup (f a)) ->
  (forall a b y, In a l -> In b l -> In y (f a) -> In y (f b) -> a = b) ->
  NoDup (flat_map f l).
Proof.
  induction l as [ | a l IH ]; intros Hnd Hin Hdisj; simpl; [ constructor | ].
  inversion Hnd as [ | ? ? Hnotin Hnd' ]; subst.
  apply NoDup_app.
  - apply Hin. left. reflexivity.
  - apply IH; [ exact Hnd' | | ].
    + intros b Hb. apply Hin. right. exact Hb.
    + intros b c y Hb Hc. apply Hdisj; right; assumption.
  - intros y Hy Hy'. apply in_flat_map in Hy'. destruct Hy' as (b & Hb & Hyb).
    assert (a = b) by (apply (Hdisj a b y); simpl; auto).
    subst b. contradiction.
Qed.

Lemma getValidHexCells_NoDup : NoDup getValidHexCells.
Proof.
  unfold getValidHexCells. apply NoDup_flat_map_disjoint.
  - apply for_range_NoDup.
  - intros qq _. apply Finite.Injective_map_NoDup; [ | apply for_range_NoDup ].
    intros a b Hab. inversion Hab. reflexivity.
  - intros a b c _ _ Ha Hb.
    apply in_map_iff in Ha. destruct Ha as (ra & <- & _).
    apply in_map_iff in Hb. destruct Hb as (rb & Hb & _).
    inversion Hb. reflexivity.
Qed.

(** X1: [getValidHexCells] lists exactly the cells [isValidPosition]
    accepts, each of them once, 721 cells in all. *)
Theorem getValidHexCells_enumerates_board :
  (forall c, In c getValidHexCells <-> isValidPosition c = true) /\
  NoDup getValidHexCells /\
  List.length getValidHexCells = 721%nat.
Proof.
  split; [ exact getValidHexCells_In | ].
  split; [ exact getValidHexCells_NoDup | ].
  vm_compute. reflexivity.
Qed.

Lemma isOnAnyEdge_iff (c : HexCoord) :
  isOnAnyEdge c = true <->
  q c = - GRID_RADIUS \/ q c = GRID_RADIUS \/
  r c = GRID_RADIUS \/ r c = - GRID_RADIUS \/
  - q c - r c = GRID_RADIUS \/ - q c - r c = - GRID_RADIUS.
Proof.
  unfold isOnAnyEdge. simpl.
  rewrite !orb_true_iff, !Z.eqb_eq. intuition discriminate.
Qed.

Lemma isWrapExit_iff (i : WrapIndex) (c : HexCoord) :
  isWrapExit i c = true <->
  match i with
  | Wrap0 => q c = - GRID_RADIUS \/ q c = GRID_RADIUS
  | Wrap1 => r c = GRID_RADIUS \/ r c = - GRID_RADIUS
  | Wrap2 => - q c - r c = GRID_RADIUS \/ - q c - r c = - GRID_RADIUS
  end.
Proof.
  rewrite isWrapExit_edges.
  destruct i; rewrite orb_true_iff, !Z.eqb_eq; reflexivity.
Qed.

Lemma getNextPosition_cases (c : HexCoord) (h : Direction) :
  getNextPosition c h =
  match h with
  | RIGHT => mkHex (q c + 1) (r c + 0)
  | DOWN_RIGHT => mkHex (q c + 0) (r c + 1)
  | DOWN_LEFT => mkHex (q c + -1) (r c + 1)
  | LEFT => mkHex (q c + -1) (r c + 0)
  | UP_LEFT => mkHex (q c + 0) (r c + -1)
  | UP_RIGHT => mkHex (q c + 1) (r c + -1)
  end.
Proof. destruct h; reflexivity. Qed.

(** X2: for a cell on the board, [isOnAnyEdge] holds exactly when one of its
    six neighbours is off the board, that is, when the cell is at distance
    [GRID_RADIUS] from the center; the wrap exits of every pair are among
    these cells. *)
Theorem isOnAnyEdge_boundary (c : HexCoord)
        (Hvalid : isValidPosition c = true) :
  (isOnAnyEdge c = true <->
   exists h, isValidPosition (getNextPosition c h) = false) /\
  (isOnAnyEdge c = true <->
   Z.max (Z.abs (q c)) (Z.max (Z.abs (r c)) (Z.abs (q c + r c)))
   = GRID_RADIUS) /\
  (forall i, isWrapExit i c = true -> isOnAnyEdge c = true).
Proof.
  apply isValidPosition_iff in Hvalid.
  rewrite isOnAnyEdge_iff. unfold GRID_RADIUS in *.
  split; [ split | split ].
  - intros Hedge.
    assert (Hdir : q c = 15 \/ q c = -15 \/ r c = 15 \/ r c = -15 \/
                   q c + r c = 15 \/ q c + r c = -15) by lia.
    destruct Hdir as [H | [H | [H | [H | [H | H]]]]];
      [ exists RIGHT | exists LEFT | exists DOWN_RIGHT | exists UP_LEFT
        | exists RIGHT | exists LEFT ];
      apply isValidPosition_false_iff; unfold GRID_RADIUS;
      rewrite getNextPosition_cases; cbn [q r]; lia.
  - intros [h Hoff]. apply isValidPosition_false_iff in Hoff.
    unfold GRID_RADIUS in Hoff. rewrite getNextPosition_cases in Hoff.
    destruct h; cbn [q r] in Hoff; lia.
  - lia.
  - intros i Hexit. apply isWrapExit_iff in Hexit.
    apply isOnAnyEdge_iff.
    unfold GRID_RADIUS in *. destruct i; lia.
Qed.

Lemma isOnAnyEdge_boundary_witness :
  (isOnAnyEdge (mkHex 15 (-5)) = true <->
   exists h, isValidPosition (getNextPosition (mkHex 15 (-5)) h) = false) /\
  (isOnAnyEdge (mkHex 15 (-5)) = true <->
   Z.max (Z.abs 15) (Z.max (Z.abs (-5)) (Z.abs (15 + -5))) = GRID_RADIUS) /\
  (forall i, isWrapExit i (mkHex 15 (-5)) = true ->
             isOnAnyEdge (mkHex 15 (-5)) = true).
Proof.
  apply (isOnAnyEdge_boundary (mkHex 15 (-5))). reflexivity.
Defined.

(** X3: how far the portal target is on the board.  For an on-board cell on
    an edge of the active pair, the cell a wrap returns is on the board
    exactly when the cell is within two steps of the middle of its edge
    ([|r| <= 2] for horizontal, [|q| <= 2] for diagonal1), and always for
    diagonal2. *)
Theorem portalTarget_valid_iff (i : WrapIndex) (c : HexCoord)
        (Hvalid : isValidPosition c = true)
        (Hexit : isWrapExit i c = true) :
  isValidPosition (portalTarget i c) = true <->
  match i with
  | Wrap0 => Z.abs (r c) <= 2
  | Wrap1 => Z.abs (q c) <= 2
  | Wrap2 => True
  end.
Proof.
  apply isValidPosition_iff in Hvalid. apply isWrapExit_iff in Hexit.
  unfold portalTarget, adjustToCenter. rewrite mirrorCoord_cases.
  destruct c as [cq cr]. simpl in Hvalid, Hexit. unfold GRID_RADIUS in *.
  destruct i; cbn [q r];
    match goal with
    | |- context [ negb (isValidPosition ?m) ] =>
      destruct (isValidPosition m) eqn:Hm;
        [ apply isValidPosition_iff in Hm
        | apply isValidPosition_false_iff in Hm ]
    end;
    unfold GRID_RADIUS in Hm; cbn [q r negb] in *;
    repeat match goal with
           | |- context [ ?a >? ?b ] => destruct (Z.gtb_spec a b)
           | |- context [ ?a <? ?b ] => destruct (Z.ltb_spec a b)
           end;
    rewrite ?isValidPosition_iff; unfold GRID_RADIUS; cbn [q r];
    try lia; try (split; intros; try exact I; lia).
Qed.

Lemma portalTarget_valid_iff_witness :
  (isValidPosition (portalTarget Wrap0 (mkHex 15 (-2))) = true <->
   Z.abs (-2) <= 2) /\
  (isValidPosition (portalTarget Wrap0 (mkHex 15 (-3))) = true <->
   Z.abs (-3) <= 2) /\
  (isValidPosition (portalTarget Wrap1 (mkHex (-9) 15)) = true <->
   Z.abs (-9) <= 2).
Proof.
  split; [ | split ].
  - apply (portalTarget_valid_iff Wrap0 (mkHex 15 (-2))); reflexivity.
  - apply (portalTarget_valid_iff Wrap0 (mkHex 15 (-3))); reflexivity.
  - apply (portalTarget_valid_iff Wrap1 (mkHex (-9) 15)); reflexivity.
Defined.

Lemma Zeqb_opp (a b : Z) : (- a =? - b) = (a =? b).
Proof.
  destruct (Z.eqb_spec a b) as [ -> | Hne ]; [ apply Z.eqb_refl | ].
  apply Z.eqb_neq. lia.
Qed.

Lemma activeEdgePair_checks (i : WrapIndex) :
  checks (activeEdgePair i) =
  match i with
  | Wrap0 => [ (fun c => q c =? - GRID_RADIUS); (fun c => q c =? GRID_RADIUS) ]
  | Wrap1 => [ (fun c => r c =? GRID_RADIUS); (fun c => r c =? - GRID_RADIUS) ]
  | Wrap2 => [ (fun c => - q c - r c =? GRID_RADIUS);
               (fun c => - q c - r c =? - GRID_RADIUS) ]
  end.
Proof. destruct i; reflexivity. Qed.

Lemma mirrorCoord_edges (i : WrapIndex) (c : HexCoord) :
  map (fun check => check (mirrorCoord i c)) (checks (activeEdgePair i))
  = rev (map (fun check => check c) (checks (activeEdgePair i))) /\
  isWrapExit i (mirrorCoord i c) = isWrapExit i c.
Proof.
  rewrite !isWrapExit_edges, mirrorCoord_cases, activeEdgePair_checks.
  destruct c as [cq cr].
  destruct i; cbn [map rev app q r].
  - rewrite <- (Zeqb_opp cq GRID_RADIUS), <- (Zeqb_opp cq (- GRID_RADIUS)).
    rewrite !Z.opp_involutive. split; [ reflexivity | apply orb_comm ].
  - rewrite <- (Zeqb_opp cr GRID_RADIUS), <- (Zeqb_opp cr (- GRID_RADIUS)).
    rewrite !Z.opp_involutive. split; [ reflexivity | apply orb_comm ].
  - replace (- - cr - - cq) with (- (- cq - cr)) by lia.
    rewrite <- (Zeqb_opp (- cq - cr) GRID_RADIUS),
            <- (Zeqb_opp (- cq - cr) (- GRID_RADIUS)).
    rewrite !Z.opp_involutive. split; [ reflexivity | apply orb_comm ].
Qed.

(** X4: the mirror of the active pair exchanges the pair's two edges: each
    edge check holds of the mirrored cell exactly when the other check
    holds of the cell.  So the mirror of a wrap exit is a wrap exit. *)
Theorem mirrorCoord_swaps_edges (i : WrapIndex) (c : HexCoord) :
  map (fun check => check (mirrorCoord i c)) (checks (activeEdgePair i))
  = rev (map (fun check => check c) (checks (activeEdgePair i))) /\
  isWrapExit i (mirrorCoord i c) = isWrapExit i c.
Proof. apply mirrorCoord_edges. Qed.

(** X5: the heading change of a wrap (table lookup, then inversion) is its
    own inverse for each of the three pairs, and so is each table. *)
Theorem wrapDirection_involutive (i : WrapIndex) (d : Direction) :
  wrapDirection i (wrapDirection i d) = d /\
  flipEntry i (Direction_of_value (flipEntry i d)) = Direction_value d.
Proof. destruct i, d; split; reflexivity. Qed.

Lemma directionVector_cases (h : Direction) :
  directionVector h =
  match h with
  | RIGHT => mkHex 1 0
  | DOWN_RIGHT => mkHex 0 1
  | DOWN_LEFT => mkHex (-1) 1
  | LEFT => mkHex (-1) 0
  | UP_LEFT => mkHex 0 (-1)
  | UP_RIGHT => mkHex 1 (-1)
  end.
Proof. destruct h; reflexivity. Qed.

Lemma wrapDirection_diagonal2 (h : Direction) :
  wrapDirection Wrap2 h =
  match h with
  | RIGHT => DOWN_RIGHT
  | DOWN_RIGHT => RIGHT
  | DOWN_LEFT => UP_RIGHT
  | LEFT => UP_LEFT
  | UP_LEFT => LEFT
  | UP_RIGHT => DOWN_LEFT
  end.
Proof. destruct h; reflexivity. Qed.

Lemma step_back_on_board (c : HexCoord) (h : Direction) :
  isValidPosition c = true ->
  isValidPosition (getNextPosition c h) = false ->
  isValidPosition (mkHex (q c - q (directionVector h))
                         (r c - r (directionVector h))) = true.
Proof.
  intros Hvalid Hoff.
  apply isValidPosition_iff in Hvalid.
  apply isValidPosition_false_iff in Hoff.
  apply isValidPosition_iff.
  rewrite getNextPosition_cases in Hoff. rewrite directionVector_cases.
  unfold GRID_RADIUS in *.
  destruct h; cbn [q r] in *; lia.
Qed.

(** X6: with the diagonal2 pair active, a head that leaves the board from
    an on-board wrap exit is sent to the mirrored cell without adjustment;
    that cell is on the board and on the opposite edge, and the step that
    follows in the new heading stays on the board: it leads to the mirror
    of the cell behind the old head. *)
Theorem wrap_diagonal2_reenters_board (c : HexCoord) (h : Direction)
        (Hvalid : isValidPosition c = true)
        (Hexit : isWrapExit Wrap2 c = true)
        (Hoff : isValidPosition (getNextPosition c h) = false) :
  classifyStep Wrap2 c h = Portal (mkHex (- r c) (- q c)) /\
  isValidPosition (mkHex (- r c) (- q c)) = true /\
  isWrapExit Wrap2 (mkHex (- r c) (- q c)) = true /\
  getNextPosition (mkHex (- r c) (- q c)) (wrapDirection Wrap2 h)
  = mirrorCoord Wrap2 (mkHex (q c - q (directionVector h))
                             (r c - r (directionVector h))) /\
  isValidPosition
    (getNextPosition (mkHex (- r c) (- q c)) (wrapDirection Wrap2 h)) = true.
Proof.
  assert (Hm : isValidPosition (mkHex (- r c) (- q c)) = true).
  { apply isValidPosition_iff in Hvalid. apply isValidPosition_iff.
    cbn [q r]. unfold GRID_RADIUS in *. lia. }
  assert (Hstep : getNextPosition (mkHex (- r c) (- q c)) (wrapDirection Wrap2 h)
                  = mirrorCoord Wrap2 (mkHex (q c - q (directionVector h))
                                             (r c - r (directionVector h)))).
  { rewrite mirrorCoord_cases, wrapDirection_diagonal2,
            getNextPosition_cases, directionVector_cases.
    destruct h; cbn [q r]; f_equal; lia. }
  split.
  { rewrite classifyStep_eq, Hoff, Hexit. unfold portalTarget.
    rewrite mirrorCoord_cases, (adjustToCenter_valid _ Hm). reflexivity. }
  split; [ exact Hm | ].
  split.
  { pose proof (mirrorCoord_edges Wrap2 c) as [_ Hswap].
    rewrite mirrorCoord_cases in Hswap. rewrite Hswap. exact Hexit. }
  split; [ exact Hstep | ].
  rewrite Hstep.
  pose proof (step_back_on_board c h Hvalid Hoff) as Hback.
  apply isValidPosition_iff in Hback. apply isValidPosition_iff.
  rewrite mirrorCoord_cases. cbn [q r] in *. unfold GRID_RADIUS in *. lia.
Qed.

Lemma wrap_diagonal2_reenters_board_witness :
  classifyStep Wrap2 (mkHex (-11) (-4)) LEFT = Portal (mkHex 4 11) /\
  isValidPosition (mkHex 4 11) = true /\
  isWrapExit Wrap2 (mkHex 4 11) = true /\
  getNextPosition (mkHex 4 11) (wrapDirection Wrap2 LEFT)
  = mirrorCoord Wrap2 (mkHex (-10) (-4)) /\
  isValidPosition
    (getNextPosition (mkHex 4 11) (wrapDirection Wrap2 LEFT)) = true.
Proof.
  apply (wrap_diagonal2_reenters_board (mkHex (-11) (-4)) LEFT);
    reflexivity.
Defined.

(** * Further properties of the snake and the food *)

Lemma isSameCoord_eq (a b : HexCoord) : isSameCoord a b = true <-> a = b.
Proof.
  unfold isSameCoord. rewrite andb_true_iff, !Z.eqb_eq.
  destruct a, b; simpl. split.
  - intros [-> ->]. reflexivity.
  - intros H. inversion H. auto.
Qed.

Lemma isOnSnake_true_iff (c : HexCoord) (s : Z) (body : list SnakeSegment) :
  isOnSnake c s body = true <-> In (mkSeg c s) body.
Proof.
  unfold isOnSnake. rewrite existsb_exists. split.
  - intros (seg & Hin & Hmatch).
    apply andb_true_iff in Hmatch. destruct Hmatch as [Hc Hs].
    apply isSameCoord_eq in Hc. apply Z.eqb_eq in Hs.
    destruct seg as [sc ss]. simpl in Hc, Hs. subst. exact Hin.
  - intros Hin. exists (mkSeg c s). split; [ exact Hin | ].
    simpl. rewrite Z.eqb_refl, andb_true_r. apply isSameCoord_eq. reflexivity.
Qed.

Lemma isOnSnake_false_iff (c : HexCoord) (s : Z) (body : list SnakeSegment) :
  isOnSnake c s body = false <-> ~ In (mkSeg c s) body.
Proof.
  rewrite <- isOnSnake_true_iff. destruct (isOnSnake c s body); split;
    congruence.
Qed.

(** X7: [isOnSnake] holds exactly when the snake has a segment with that
    cell and that face; the same cell on the other face does not count. *)
Theorem isOnSnake_iff (c : HexCoord) (s : Z) (body : list SnakeSegment) :
  (isOnSnake c s body = true <-> In (mkSeg c s) body) /\
  (isOnSnake c s body = false <-> ~ In (mkSeg c s) body).
Proof.
  split; [ apply isOnSnake_true_iff | apply isOnSnake_false_iff ].
Qed.

Lemma faceSnake_NoDup (s : Z) : NoDup (faceSnake s).
Proof.
  unfold faceSnake.
  apply Finite.Injective_map_NoDup; [ | apply getValidHexCells_NoDup ].
  intros a b Hab. inversion Hab. reflexivity.
Qed.

Lemma faceSnake_length (s : Z) : List.length (faceSnake s) = 721%nat.
Proof. unfold faceSnake. rewrite length_map. vm_compute. reflexivity. Qed.

Lemma faceSnake_In (s : Z) (p : SnakeSegment) :
  In p (faceSnake s) <-> isValidPosition p = true /\ side p = s.
Proof.
  unfold faceSnake. rewrite in_map_iff. split.
  - intros (c & <- & Hc). apply getValidHexCells_In in Hc. auto.
  - intros [Hv Hs]. exists (coord p). split;
      [ destruct p; simpl in *; subst; reflexivity
      | apply getValidHexCells_In; exact Hv ].
Qed.

(** A snake that leaves no position free on face [s] has at least 721
    segments. *)
Lemma covering_snake_length (body : list SnakeSegment) (s : Z) :
  (forall c, isValidPosition c = true -> isOnSnake c s body = true) ->
  (721 <= List.length body)%nat.
Proof.
  intros Hcover. rewrite <- (faceSnake_length s).
  apply NoDup_incl_length; [ apply faceSnake_NoDup | ].
  intros p Hp. apply faceSnake_In in Hp. destruct Hp as [Hv Hs].
  specialize (Hcover (coord p) Hv). apply isOnSnake_true_iff in Hcover.
  destruct p; simpl in *; subst; exact Hcover.
Qed.

Lemma availablePositions_nonempty (body : list SnakeSegment)
      (targetSide : option Z) (s : Z) :
  In s (sidesToCheck targetSide) ->
  (List.length body < 721)%nat ->
  availablePositions body targetSide <> [].
Proof.
  intros Hs Hlen Hempty.
  assert (Hcover : forall c, isValidPosition c = true ->
                             isOnSnake c s body = true).
  { intros c Hv. destruct (isOnSnake c s body) eqn:Hon; [ reflexivity | ].
    assert (Hin : In (mkSeg c s) (availablePositions body targetSide))
      by (apply availablePositions_In; simpl; auto).
    rewrite Hempty in Hin. contradiction. }
  apply covering_snake_length in Hcover. lia.
Qed.

Lemma generateFood_free_position (body : list SnakeSegment)
      (targetSide : option Z) (g : Rng)
      (Hshort : (List.length body < 721)%nat) :
  let f := fst (generateFood body targetSide g) in
  isValidPosition f = true /\
  isOnSnake f (side f) body = false /\
  In (side f) (sidesToCheck targetSide) /\
  snd (generateFood body targetSide g) = snd (Math_random g).
Proof.
  intros f.
  assert (Hne : availablePositions body targetSide <> []).
  { destruct targetSide as [ t | ].
    - apply (availablePositions_nonempty body (Some t) t);
        [ left; reflexivity | exact Hshort ].
    - apply (availablePositions_nonempty body None 0);
        [ left; reflexivity | exact Hshort ]. }
  pose proof (generateFood_In body targetSide g Hne) as Hin.
  apply availablePositions_In in Hin. fold f in Hin.
  destruct Hin as (Hv & Hs & Hon).
  repeat split; try assumption.
  unfold generateFood.
  destruct (availablePositions body targetSide) as [ | p rest ];
    [ congruence | ].
  reflexivity.
Qed.

(** X8: for a snake of fewer than 721 segments (the number of cells of one
    face), [generateFood] returns, whatever the random draw, an on-board
    position that is not on the snake, on the requested face when one is
    given and on face 0 or 1 otherwise; it draws exactly one random
    number. *)
Theorem generateFood_short_snake (body : list SnakeSegment)
        (targetSide : option Z) (g : Rng)
        (Hshort : (List.length body < 721)%nat) :
  let f := fst (generateFood body targetSide g) in
  isValidPosition f = true /\
  isOnSnake f (side f) body = false /\
  In (side f) (sidesToCheck targetSide) /\
  snd (generateFood body targetSide g) = snd (Math_random g).
Proof. apply generateFood_free_position. exact Hshort. Qed.

Lemma generateFood_short_snake_witness :
  let f := fst (generateFood initialSnake (Some 1) halfRng) in
  isValidPosition f = true /\
  isOnSnake f (side f) initialSnake = false /\
  In (side f) (sidesToCheck (Some 1)) /\
  snd (generateFood initialSnake (Some 1) halfRng) = snd (Math_random halfRng).
Proof.
  apply (generateFood_short_snake initialSnake (Some 1) halfRng).
  simpl. lia.
Defined.

(** The result of [generateFood] is on the board and on a checked face (or
    on face 0) in every case, the fallback included. *)
Lemma generateFood_on_board (body : list SnakeSegment) (targetSide : option Z)
      (g : Rng) :
  let f := fst (generateFood body targetSide g) in
  isValidPosition f = true /\
  (side f = 0 \/ In (side f) (sidesToCheck targetSide)).
Proof.
  intros f.
  destruct (availablePositions body targetSide) as [ | p rest ] eqn:Hav.
  - unfold f. rewrite (generateFood_empty _ _ _ Hav). simpl. auto.
  - assert (Hne : availablePositions body targetSide <> [])
      by (rewrite Hav; discriminate).
    pose proof (generateFood_In body targetSide g Hne) as Hin.
    apply availablePositions_In in Hin. fold f in Hin. tauto.
Qed.

(** * Input and start *)

(** X9: a key press changes nothing but the heading; the new heading is
    the old one or one of its two neighbours in the cycle of six, never the
    opposite heading.  A listener registered by a render that was not
    playing, or was over, leaves the state as it is; a listener registered
    by a playing render turns the heading (ArrowLeft by 5, ArrowRight by 1
    modulo 6, any other key by 0) whatever the flags of the state it
    updates. *)
Theorem handleKeyDown_turns_one_step (float : Type)
        (renderedPlaying renderedOver : bool) (key : string)
        (s : GameState float) :
  let s' := handleKeyDown renderedPlaying renderedOver key s in
  snake s' = snake s /\ food s' = food s /\ currentSide s' = currentSide s /\
  score s' = score s /\ gameOver s' = gameOver s /\
  isPlaying s' = isPlaying s /\ eatEffect s' = eatEffect s /\
  wrapImmunity s' = wrapImmunity s /\
  (Direction_value (direction s') = Direction_value (direction s) \/
   Direction_value (direction s') = (Direction_value (direction s) + 5) mod 6 \/
   Direction_value (direction s') = (Direction_value (direction s) + 1) mod 6) /\
  Direction_value (direction s') <> (Direction_value (direction s) + 3) mod 6 /\
  (renderedPlaying = false \/ renderedOver = true -> s' = s) /\
  (renderedPlaying = true -> renderedOver = false ->
   Direction_value (direction s') =
   if (key =? "ArrowLeft")%string
   then (Direction_value (direction s) + 5) mod 6
   else if (key =? "ArrowRight")%string
        then (Direction_value (direction s) + 1) mod 6
        else Direction_value (direction s)).
Proof.
  intros s'. unfold s', handleKeyDown.
  destruct s as [body f d cur sc over play eff w].
  destruct renderedPlaying, renderedOver;
    cbn [negb orb snake food currentSide score gameOver
              isPlaying eatEffect wrapImmunity direction];
    repeat (split; [ reflexivity | ]);
    try (split; [ left; reflexivity | ];
         split; [ destruct d; vm_compute; discriminate | ];
         split; [ intros _; reflexivity | intros; discriminate ]).
  split.
  - destruct (key =? "ArrowLeft")%string;
      [ right; left; destruct d; reflexivity | ].
    destruct (key =? "ArrowRight")%string;
      [ right; right; destruct d; reflexivity | left; reflexivity ].
  - split; [ | split; [ intros [H | H]; discriminate H | intros _ _ ] ].
    + destruct (key =? "ArrowLeft")%string;
        [ destruct d; vm_compute; discriminate | ].
      destruct (key =? "ArrowRight")%string;
        destruct d; vm_compute; discriminate.
    + destruct (key =? "ArrowLeft")%string; [ destruct d; reflexivity | ].
      destruct (key =? "ArrowRight")%string; [ destruct d | ]; reflexivity.
Qed.

(** X10: for two presses handled with the same flags of the registering
    render, a right turn undoes a left turn and a left turn undoes a right
    turn, whatever the state they update; six turns the same way give back
    the state. *)
Theorem handleKeyDown_left_right_inverse (float : Type)
        (renderedPlaying renderedOver : bool) (s : GameState float) :
  handleKeyDown renderedPlaying renderedOver "ArrowRight"
    (handleKeyDown renderedPlaying renderedOver "ArrowLeft" s) = s /\
  handleKeyDown renderedPlaying renderedOver "ArrowLeft"
    (handleKeyDown renderedPlaying renderedOver "ArrowRight" s) = s /\
  Nat.iter 6 (handleKeyDown renderedPlaying renderedOver "ArrowRight") s = s /\
  Nat.iter 6 (handleKeyDown renderedPlaying renderedOver "ArrowLeft") s = s.
Proof.
  destruct s as [body f d cur sc over play eff w].
  destruct renderedPlaying, renderedOver, d; repeat split; reflexivity.
Qed.

(** * Further properties of the tick *)

Lemma removelast_cons_cons {A : Type} (a b : A) (l : list A) :
  removelast (a :: b :: l) = a :: removelast (b :: l).
Proof. reflexivity. Qed.

(** The state a tick returns when the head moves and does not run into the
    body, field by field. *)
Lemma tick_nonfatal (i : WrapIndex) (float : Type)
      (hexToPixel : Z -> Z -> float * float) (g : Rng) (now : Z)
      (prev : GameState float) (head : SnakeSegment)
      (rest : list SnakeSegment)
      (newHead : SnakeSegment) (newSide : Z) (flipped : bool)
      (newDirection : Direction) :
  snake prev = head :: rest ->
  moveHead i head (direction prev)
  = Some (newHead, newSide, flipped, newDirection) ->
  isOnSnake newHead newSide (snake prev) = false ->
  let eats :=
    isSameCoord newHead (food prev) && (side newHead =? side (food prev)) in
  let respawn :=
    flipped && negb (isValidPosition (mirrorCoord i (food prev))) in
  let g1 :=
    if respawn
    then snd (generateFood (newHead :: snake prev) (Some newSide) g)
    else g in
  exists s' g',
    tick i hexToPixel g now prev = Some (s', g') /\
    snake s' = (if eats then newHead :: snake prev
                else newHead :: removelast (snake prev)) /\
    food s' = (if eats then fst (generateFood (newHead :: snake prev) None g1)
               else if flipped then
                 if isValidPosition (mirrorCoord i (food prev))
                 then mkSeg (mirrorCoord i (food prev)) newSide
                 else fst (generateFood (newHead :: snake prev)
                                        (Some newSide) g)
               else food prev) /\
    g' = (if eats then snd (generateFood (newHead :: snake prev) None g1)
          else g1) /\
    direction s' = newDirection /\
    currentSide s' = (if flipped then newSide else currentSide prev) /\
    score s' = (if eats then score prev + 10 else score prev) /\
    wrapImmunity s' = (if flipped then 1
                       else if wrapImmunity prev >? 0
                            then wrapImmunity prev - 1
                            else wrapImmunity prev) /\
    gameOver s' = gameOver prev /\ isPlaying s' = isPlaying prev /\
    eatEffect s' = (if eats
                    then Some (mkEffect
                                 (fst (hexToPixel (q newHead) (r newHead)))
                                 (snd (hexToPixel (q newHead) (r newHead)))
                                 true now)
                    else eatEffect prev).
Proof.
  intros Hsnake Hmove Hfree eats respawn g1.
  pose proof (moveHead_newSide _ _ _ _ _ _ _ Hmove) as Hside.
  subst eats respawn g1.
  unfold tick. rewrite Hsnake in *. rewrite Hmove, Hfree.
  rewrite <- Hside.
  destruct flipped; cbn [andb].
  - destruct (isValidPosition (mirrorCoord i (food prev))) eqn:Hm; cbn [negb].
    + destruct (isSameCoord newHead (food prev) && (newSide =? side (food prev))).
      * destruct (generateFood (newHead :: head :: rest) None g) as [f g2].
        eexists; eexists; split; [ reflexivity | ].
        cbn. destruct (mirrorCoord i (food prev)). repeat split; reflexivity.
      * eexists; eexists; split; [ reflexivity | ].
        cbn [snake food direction currentSide score wrapImmunity gameOver
                   isPlaying eatEffect].
        rewrite removelast_cons_cons.
        destruct (mirrorCoord i (food prev)). repeat split; reflexivity.
    + destruct (generateFood (newHead :: head :: rest) (Some newSide) g)
        as [f1 g1].
      destruct (isSameCoord newHead (food prev) && (newSide =? side (food prev))).
      * cbn [snd fst].
        destruct (generateFood (newHead :: head :: rest) None g1) as [f g2].
        eexists; eexists; split; [ reflexivity | ].
        cbn. repeat split; reflexivity.
      * eexists; eexists; split; [ reflexivity | ].
        cbn [snake food direction currentSide score wrapImmunity gameOver
                   isPlaying eatEffect snd fst].
        rewrite removelast_cons_cons. repeat split; reflexivity.
  - destruct (wrapImmunity prev >? 0);
      destruct (isSameCoord newHead (food prev) && (newSide =? side (food prev)));
      try (destruct (generateFood (newHead :: head :: rest) None g) as [f g2]);
      (eexists; eexists; split; [ reflexivity | ]);
      cbn [snake food direction currentSide score wrapImmunity gameOver
                 isPlaying eatEffect snd fst];
      rewrite ?removelast_cons_cons; repeat split; reflexivity.
Qed.

(** The two ways a tick ends the game. *)
Lemma tick_fatal (i : WrapIndex) (float : Type)
      (hexToPixel : Z -> Z -> float * float) (g : Rng) (now : Z)
      (prev : GameState float) (head : SnakeSegment)
      (rest : list SnakeSegment) :
  snake prev = head :: rest ->
  (moveHead i head (direction prev) = None \/
   exists newHead newSide flipped newDirection,
     moveHead i head (direction prev)
     = Some (newHead, newSide, flipped, newDirection) /\
     isOnSnake newHead newSide (snake prev) = true) ->
  tick i hexToPixel g now prev = Some (endGame prev, g).
Proof.
  intros Hsnake Hfatal. unfold tick. rewrite Hsnake in *.
  destruct Hfatal as [ -> | (nh & ns & fl & nd & -> & ->) ]; reflexivity.
Qed.

Lemma moveHead_cases (i : WrapIndex) (head : SnakeSegment) (h : Direction) :
  moveHead i head h =
  if isValidPosition (getNextPosition head h) then
    Some (mkSeg (getNextPosition head h) (side head), side head, false, h)
  else if isWrapExit i head then
    Some (mkSeg (portalTarget i head) (1 - side head), 1 - side head, true,
          wrapDirection i h)
  else None.
Proof.
  unfold moveHead. rewrite classifyStep_eq.
  destruct (isValidPosition (getNextPosition head h)); [ reflexivity | ].
  destruct (isWrapExit i head); reflexivity.
Qed.

Lemma moveHead_face (i : WrapIndex) (head : SnakeSegment) (h : Direction)
      newHead newSide flipped newDirection :
  moveHead i head h = Some (newHead, newSide, flipped, newDirection) ->
  newSide = side newHead /\
  side newHead = (if flipped then 1 - side head else side head).
Proof.
  rewrite moveHead_cases.
  destruct (isValidPosition (getNextPosition head h));
    [ | destruct (isWrapExit i head) ];
    intros H; inversion H; subst; split; reflexivity.
Qed.

Lemma In_removelast {A : Type} (l : list A) (a : A) :
  In a (removelast l) -> In a l.
Proof.
  induction l as [ | b l IH ]; [ intros [] | ].
  destruct l as [ | c l ]; [ intros [] | ].
  rewrite removelast_cons_cons. intros [ -> | H ];
    [ left; reflexivity | right; apply IH; exact H ].
Qed.

Lemma NoDup_removelast {A : Type} (l : list A) :
  NoDup l -> NoDup (removelast l).
Proof.
  induction l as [ | b l IH ]; [ intros _; constructor | ].
  destruct l as [ | c l ]; [ intros _; constructor | ].
  rewrite removelast_cons_cons. intros H.
  inversion H as [ | ? ? Hnotin Hnd ]; subst. constructor.
  - intros Hin. apply Hnotin. apply In_removelast. exact Hin.
  - apply IH. exact Hnd.
Qed.

Lemma Forall_removelast {A : Type} (P : A -> Prop) (l : list A) :
  Forall P l -> Forall P (removelast l).
Proof.
  rewrite !Forall_forall. intros H a Ha. apply H, In_removelast, Ha.
Qed.

Lemma removelast_length_nonempty {A : Type} (l : list A) :
  l <> [] -> S (List.length (removelast l)) = List.length l.
Proof.
  destruct l as [ | a l ]; [ congruence | ].
  intros _. rewrite removelast_cons_length. reflexivity.
Qed.

Lemma segment_eta (seg : SnakeSegment) : mkSeg (coord seg) (side seg) = seg.
Proof. destruct seg; reflexivity. Qed.

Lemma isFace_flip (s : Z) (flipped : bool) :
  isFace s -> isFace (if flipped then 1 - s else s).
Proof. unfold isFace. destruct flipped; lia. Qed.

Lemma endGame_invariant (float : Type) (s : GameState float) :
  session_invariant s -> session_invariant (endGame s).
Proof. intros H. exact H. Qed.

Lemma tick_invariant (i : WrapIndex) (float : Type)
      (hexToPixel : Z -> Z -> float * float) (g : Rng) (now : Z)
      (prev : GameState float) :
  session_invariant prev ->
  exists s' g',
    tick i hexToPixel g now prev = Some (s', g') /\ session_invariant s'.
Proof.
  intros Hinv.
  pose proof Hinv
    as (Hne & Hnd & Hlen & (Hfaces & Hfood_face & Hcur) & Hfood & Hw).
  unfold length_matches_score in Hlen.
  destruct (snake prev) as [ | head rest ] eqn:Hsnake; [ congruence | ].
  destruct (moveHead i head (direction prev))
    as [ [[[newHead newSide] flipped] newDirection] | ] eqn:Hmove.
  2: { exists (endGame prev), g. split; [ | exact Hinv ].
       apply (tick_fatal i float hexToPixel g now prev head rest Hsnake).
       left. exact Hmove. }
  destruct (isOnSnake newHead newSide (snake prev)) eqn:Hon.
  { exists (endGame prev), g. split; [ | exact Hinv ].
    apply (tick_fatal i float hexToPixel g now prev head rest Hsnake).
    right. exists newHead, newSide, flipped, newDirection. auto. }
  destruct (moveHead_face _ _ _ _ _ _ _ Hmove) as [Hside Hface].
  destruct (tick_nonfatal i float hexToPixel g now prev head rest
              newHead newSide flipped newDirection Hsnake Hmove Hon)
    as (s' & g' & Htick & Hs & Hf & _ & _ & Hc & Hsc & Hwi & _ & _ & _).
  exists s', g'. split; [ exact Htick | ].
  assert (Hhead_face : isFace (side head))
    by (inversion Hfaces; assumption).
  assert (Hnew_face : isFace (side newHead))
    by (rewrite Hface; apply isFace_flip; exact Hhead_face).
  assert (Hnotin : ~ In newHead (snake prev)).
  { apply isOnSnake_false_iff in Hon. rewrite Hside, segment_eta in Hon.
    exact Hon. }
  rewrite Hsnake in Hs, Hf, Hnotin.
  set (eats := isSameCoord newHead (food prev) &&
               (side newHead =? side (food prev))) in *.
  unfold session_invariant, length_matches_score, faces_consistent.
  rewrite Hs, Hf, Hc, Hsc, Hwi.
  split; [ destruct eats; discriminate | ].
  split.
  { destruct eats; constructor; try assumption.
    - intros Hin. apply Hnotin, In_removelast, Hin.
    - apply NoDup_removelast. exact Hnd. }
  split.
  { destruct eats.
    - cbn [List.length] in *. lia.
    - cbn [List.length]. rewrite removelast_length_nonempty by discriminate.
      exact Hlen. }
  split; [ split; [ | split ] | split ].
  - destruct eats; constructor; try assumption.
    apply Forall_removelast. exact Hfaces.
  - destruct eats.
    + destruct (generateFood_on_board (newHead :: head :: rest) None
                  (if flipped &&
                      negb (isValidPosition (mirrorCoord i (food prev)))
                   then snd (generateFood (newHead :: head :: rest)
                                          (Some newSide) g)
                   else g)) as [_ Hs0].
      unfold isFace. cbn [sidesToCheck In] in Hs0. lia.
    + destruct flipped; [ | exact Hfood_face ].
      destruct (isValidPosition (mirrorCoord i (food prev)));
        [ cbn [side]; rewrite Hside; exact Hnew_face | ].
      destruct (generateFood_on_board (newHead :: head :: rest)
                  (Some newSide) g) as [_ Hs0].
      cbn [sidesToCheck In] in Hs0.
      unfold isFace in *. lia.
  - destruct eats; cbn [map hd_error]; f_equal;
      (destruct flipped; [ symmetry; exact Hside | ]);
      rewrite Hface; cbn [map hd_error] in Hcur; congruence.
  - destruct eats.
    + apply generateFood_on_board.
    + destruct flipped; [ | exact Hfood ].
      destruct (isValidPosition (mirrorCoord i (food prev))) eqn:Hm;
        [ exact Hm | apply generateFood_on_board ].
  - destruct flipped; [ right; reflexivity | ].
    destruct (Z.gtb_spec (wrapImmunity prev) 0); lia.
Qed.

Lemma initialSnake_invariant (float : Type) (f : Food) (play : bool) :
  isValidPosition f = true -> isFace (side f) ->
  session_invariant
    (@mkState float initialSnake f RIGHT 0 0 false play None 0).
Proof.
  intros Hv Hf. unfold session_invariant, length_matches_score,
                faces_consistent, initialSnake, isFace.
  cbn [snake food score currentSide wrapImmunity].
  split; [ discriminate | ].
  split.
  { repeat constructor; simpl; intuition discriminate. }
  split; [ reflexivity | ].
  split; [ | auto ].
  split; [ repeat constructor | ].
  split; [ exact Hf | reflexivity ].
Qed.

Lemma startGame_invariant (float : Type) (g : Rng) :
  session_invariant (fst (@startGame float g)) /\
  session_invariant (fst (@initialGameState float g)).
Proof.
  unfold startGame, initialGameState.
  pose proof (generateFood_on_board initialSnake None g) as [Hv Hs].
  destruct (generateFood initialSnake None g) as [f g'].
  cbn [fst] in *.
  assert (Hf : isFace (side f))
    by (unfold isFace; cbn [sidesToCheck In] in Hs; lia).
  split; apply initialSnake_invariant; assumption.
Qed.

Lemma handleKeyDown_invariant (float : Type)
      (renderedPlaying renderedOver : bool) (key : string)
      (s : GameState float) :
  session_invariant s ->
  session_invariant (handleKeyDown renderedPlaying renderedOver key s).
Proof.
  intros H. unfold handleKeyDown.
  destruct (negb renderedPlaying || renderedOver); exact H.
Qed.

Lemma run_preserves (i : WrapIndex) (float : Type)
      (hexToPixel : Z -> Z -> float * float)
      (P : GameState float -> Prop) :
  (forall e st, P (fst st) ->
                exists st', handleEvent i hexToPixel e st = Some st' /\
                            P (fst st')) ->
  forall events st,
    P (fst st) ->
    exists st', run i hexToPixel events st = Some st' /\ P (fst st').
Proof.
  intros Hstep events.
  induction events as [ | e events IH ]; intros st HP.
  - exists st. split; [ reflexivity | exact HP ].
  - destruct (Hstep e st HP) as (st1 & He & HP1).
    destruct (IH st1 HP1) as (st' & Hrun & HP').
    exists st'. split; [ | exact HP' ].
    cbn [run]. rewrite He. exact Hrun.
Qed.

Lemma handleEvent_invariant (i : WrapIndex) (float : Type)
      (hexToPixel : Z -> Z -> float * float) (e : Event)
      (st : GameState float * Rng) :
  session_invariant (fst st) ->
  exists st', handleEvent i hexToPixel e st = Some st' /\
              session_invariant (fst st').
Proof.
  intros Hinv. destruct e as [ now | rp ro key | | ]; cbn [handleEvent].
  - destruct (tick_invariant i float hexToPixel (snd st) now (fst st) Hinv)
      as (s' & g' & Htick & Hinv').
    exists (s', g'). split; assumption.
  - eexists; split; [ reflexivity | ].
    apply handleKeyDown_invariant. exact Hinv.
  - eexists; split; [ reflexivity | exact Hinv ].
  - eexists; split; [ reflexivity | apply startGame_invariant ].
Qed.

Lemma run_invariant (i : WrapIndex) (float : Type)
      (hexToPixel : Z -> Z -> float * float) (events : list Event)
      (g : Rng) :
  exists st', run i hexToPixel events (initialGameState g) = Some st' /\
              session_invariant (fst st').
Proof.
  apply run_preserves.
  - intros e st. apply handleEvent_invariant.
  - apply startGame_invariant.
Qed.

(** ** Sessions *)

(** X11: whatever the events of a session (interval ticks, key presses,
    effect timeouts, starts and restarts) and whatever the random draws,
    no update throws, the snake is never empty, no two segments share cell
    and face, and the score is ten times the number of segments beyond the
    first three. *)
Theorem session_length_matches_score (i : WrapIndex) (float : Type)
        (hexToPixel : Z -> Z -> float * float) (events : list Event)
        (g : Rng) :
  exists s g',
    run i hexToPixel events (initialGameState g) = Some (s, g') /\
    snake s <> [] /\
    NoDup (snake s) /\
    score s = 10 * (Z.of_nat (List.length (snake s)) - 3).
Proof.
  destruct (run_invariant i float hexToPixel events g)
    as ([s g'] & Hrun & Hne & Hnd & Hlen & _).
  exists s, g'. unfold length_matches_score in Hlen. cbn [fst] in *.
  repeat split; try assumption. lia.
Qed.

(** X12: in every state of a session the faces of the segments and of the
    food are 0 or 1, the displayed face is the face the head is on, the
    food is on the board, and the wrap immunity is 0 or 1. *)
Theorem session_faces_consistent (i : WrapIndex) (float : Type)
        (hexToPixel : Z -> Z -> float * float) (events : list Event)
        (g : Rng) :
  exists s g',
    run i hexToPixel events (initialGameState g) = Some (s, g') /\
    Forall (fun seg : SnakeSegment => side seg = 0 \/ side seg = 1) (snake s) /\
    (side (food s) = 0 \/ side (food s) = 1) /\
    hd_error (map side (snake s)) = Some (currentSide s) /\
    isValidPosition (food s) = true /\
    (wrapImmunity s = 0 \/ wrapImmunity s = 1).
Proof.
  destruct (run_invariant i float hexToPixel events g)
    as ([s g'] & Hrun & _ & _ & _ & (Hfaces & Hfood_face & Hcur) & Hfood & Hw).
  exists s, g'. cbn [fst] in *. repeat split; assumption.
Qed.

(** X13: in every state of a session the cell the renderer marks as the
    snake's head ([isSnakeHead]) is the cell of the first segment. *)
Theorem session_rendered_head (i : WrapIndex) (float : Type)
        (hexToPixel : Z -> Z -> float * float) (events : list Event)
        (g : Rng) :
  exists s g' head rest,
    run i hexToPixel events (initialGameState g) = Some (s, g') /\
    snake s = head :: rest /\
    forall cell, isSnakeHead cell s = isSameCoord cell head.
Proof.
  destruct (run_invariant i float hexToPixel events g)
    as ([s g'] & Hrun & Hne & _ & _ & (_ & _ & Hcur) & _).
  cbn [fst] in *.
  destruct (snake s) as [ | head rest ] eqn:Hsnake; [ congruence | ].
  exists s, g', head, rest. repeat split; try assumption.
  intros cell. unfold isSnakeHead, snakeOnCell. rewrite Hsnake.
  cbn [map hd_error] in Hcur. inversion Hcur as [Hside].
  cbn [filter]. rewrite Z.eqb_refl. reflexivity.
Qed.

Lemma tick_on_board_diagonal2 (float : Type)
      (hexToPixel : Z -> Z -> float * float) (g : Rng) (now : Z)
      (prev : GameState float) :
  snake prev <> [] ->
  snake_on_board prev ->
  exists s' g',
    tick Wrap2 hexToPixel g now prev = Some (s', g') /\ snake_on_board s'.
Proof.
  intros Hne Hboard. unfold snake_on_board in *.
  destruct (snake prev) as [ | head rest ] eqn:Hsnake; [ congruence | ].
  destruct (moveHead Wrap2 head (direction prev))
    as [ [[[newHead newSide] flipped] newDirection] | ] eqn:Hmove.
  2: { exists (endGame prev), g. split.
       - apply (tick_fatal Wrap2 float hexToPixel g now prev head rest Hsnake).
         left. exact Hmove.
       - cbn [endGame snake]. rewrite Hsnake. exact Hboard. }
  destruct (isOnSnake newHead newSide (snake prev)) eqn:Hon.
  { exists (endGame prev), g. split.
    - apply (tick_fatal Wrap2 float hexToPixel g now prev head rest Hsnake).
      right. exists newHead, newSide, flipped, newDirection. auto.
    - cbn [endGame snake]. rewrite Hsnake. exact Hboard. }
  destruct (tick_nonfatal Wrap2 float hexToPixel g now prev head rest
              newHead newSide flipped newDirection Hsnake Hmove Hon)
    as (s' & g' & Htick & Hs & _).
  exists s', g'. split; [ exact Htick | ].
  assert (Hnew : isValidPosition newHead = true).
  { rewrite moveHead_cases in Hmove.
    destruct (isValidPosition (getNextPosition head (direction prev))) eqn:Hn.
    - inversion Hmove; subst. exact Hn.
    - destruct (isWrapExit Wrap2 head); [ | discriminate ].
      inversion Hmove; subst. cbn [coord].
      apply portalTarget_valid_diagonal2.
      inversion Hboard; assumption. }
  rewrite Hs, Hsnake.
  destruct (isSameCoord newHead (food prev) && (side newHead =? side (food prev)));
    constructor; try assumption.
  apply Forall_removelast. exact Hboard.
Qed.

Lemma handleEvent_on_board_diagonal2 (float : Type)
      (hexToPixel : Z -> Z -> float * float) (e : Event)
      (st : GameState float * Rng) :
  session_invariant (fst st) /\ snake_on_board (fst st) ->
  exists st', handleEvent Wrap2 hexToPixel e st = Some st' /\
              (session_invariant (fst st') /\ snake_on_board (fst st')).
Proof.
  intros [Hinv Hboard].
  destruct (handleEvent_invariant Wrap2 float hexToPixel e st Hinv)
    as (st' & He & Hinv').
  exists st'. split; [ exact He | ]. split; [ exact Hinv' | ].
  destruct e as [ now | rp ro key | | ]; cbn [handleEvent] in He.
  - destruct (tick_on_board_diagonal2 float hexToPixel (snd st) now (fst st))
      as (s' & g' & Htick & Hb); [ apply Hinv | exact Hboard | ].
    rewrite Htick in He. inversion He; subst. exact Hb.
  - inversion He; subst. cbn [fst]. unfold handleKeyDown.
    destruct (negb rp || ro); exact Hboard.
  - inversion He; subst. exact Hboard.
  - inversion He; subst. unfold startGame.
    destruct (generateFood initialSnake None (snd st)).
    unfold snake_on_board. cbn [fst snake]. repeat constructor.
Qed.

(** X14: with the diagonal2 pair active, every segment of the snake is on
    the board in every state of a session. *)
Theorem session_diagonal2_on_board (float : Type)
        (hexToPixel : Z -> Z -> float * float) (events : list Event)
        (g : Rng) :
  exists s g',
    run Wrap2 hexToPixel events (initialGameState g) = Some (s, g') /\
    Forall (fun seg : SnakeSegment => isValidPosition seg = true) (snake s).
Proof.
  destruct (run_preserves Wrap2 float hexToPixel
              (fun s => session_invariant s /\ snake_on_board s)
              (handleEvent_on_board_diagonal2 float hexToPixel)
              events (initialGameState g))
    as ([s g'] & Hrun & _ & Hboard).
  - split; [ apply startGame_invariant | ].
    unfold initialGameState.
    destruct (generateFood initialSnake None g).
    unfold snake_on_board. cbn [fst snake]. repeat constructor.
  - exists s, g'. split; [ exact Hrun | exact Hboard ].
Qed.

(** ** Single ticks *)

(** X15: a tick throws exactly when the snake is empty.  On a non-empty
    snake whose segments are pairwise distinct it returns a state whose
    snake is again non-empty with pairwise distinct segments. *)
Theorem tick_keeps_segments_distinct (i : WrapIndex) (float : Type)
        (hexToPixel : Z -> Z -> float * float) (g : Rng) (now : Z)
        (prev : GameState float) :
  (tick i hexToPixel g now prev = None <-> snake prev = []) /\
  (snake prev <> [] -> NoDup (snake prev) ->
   exists s' g',
     tick i hexToPixel g now prev = Some (s', g') /\
     snake s' <> [] /\ NoDup (snake s')).
Proof.
  assert (Hsome : snake prev <> [] -> NoDup (snake prev) ->
                  exists s' g',
                    tick i hexToPixel g now prev = Some (s', g') /\
                    snake s' <> [] /\ NoDup (snake s')).
  { intros Hne Hnd.
    destruct (snake prev) as [ | head rest ] eqn:Hsnake; [ congruence | ].
    destruct (moveHead i head (direction prev))
      as [ [[[newHead newSide] flipped] newDirection] | ] eqn:Hmove.
    2: { exists (endGame prev), g. split.
         - apply (tick_fatal i float hexToPixel g now prev head rest Hsnake).
           left. exact Hmove.
         - cbn [endGame snake]. rewrite Hsnake. auto. }
    destruct (isOnSnake newHead newSide (snake prev)) eqn:Hon.
    { exists (endGame prev), g. split.
      - apply (tick_fatal i float hexToPixel g now prev head rest Hsnake).
        right. exists newHead, newSide, flipped, newDirection. auto.
      - cbn [endGame snake]. rewrite Hsnake. auto. }
    destruct (tick_nonfatal i float hexToPixel g now prev head rest
                newHead newSide flipped newDirection Hsnake Hmove Hon)
      as (s' & g' & Htick & Hs & _).
    exists s', g'. split; [ exact Htick | ].
    destruct (moveHead_face _ _ _ _ _ _ _ Hmove) as [Hside _].
    assert (Hnotin : ~ In newHead (snake prev)).
    { apply isOnSnake_false_iff in Hon.
      rewrite Hside, segment_eta in Hon. exact Hon. }
    rewrite Hs, Hsnake. rewrite Hsnake in Hnotin.
    destruct (isSameCoord newHead (food prev) &&
              (side newHead =? side (food prev)));
      (split; [ discriminate | ]); constructor; try assumption.
    - intros Hin. apply Hnotin, In_removelast, Hin.
    - apply NoDup_removelast. exact Hnd. }
  split; [ | exact Hsome ].
  split.
  - unfold tick. destruct (snake prev) as [ | head rest ]; [ reflexivity | ].
    destruct (moveHead i head (direction prev)) as [ [[[nh ns] fl] nd] | ];
      [ | discriminate ].
    destruct (isOnSnake nh ns (head :: rest)); [ discriminate | ].
    match goal with
    | |- context [ match ?e with (_, _) => _ end ] =>
      destruct e as [[nf nw] g1]
    end.
    destruct (isSameCoord nh (food prev) && (ns =? side (food prev)));
      [ destruct (generateFood (nh :: head :: rest) None g1) | ];
      discriminate.
  - intros Hempty. unfold tick. rewrite Hempty. reflexivity.
Qed.

(** X16: a plain step.  When the next cell is on the board, is on no
    segment and does not hold the food, the tick puts the head there on
    the same face and drops the tail; food, heading, displayed face,
    score, flags and eat effect stay, the wrap immunity goes down by one if
    it was positive, and no random number is drawn. *)
Theorem tick_plain_step (i : WrapIndex) (float : Type)
        (hexToPixel : Z -> Z -> float * float) (g : Rng) (now : Z)
        (prev : GameState float) (head : SnakeSegment)
        (rest : list SnakeSegment)
        (Hsnake : snake prev = head :: rest)
        (Hnext : isValidPosition (getNextPosition head (direction prev)) = true)
        (Hfree : isOnSnake (getNextPosition head (direction prev)) (side head)
                           (snake prev) = false)
        (Hnofood : isSameCoord (getNextPosition head (direction prev))
                               (food prev)
                   && (side head =? side (food prev)) = false) :
  tick i hexToPixel g now prev
  = Some (mkState (mkSeg (getNextPosition head (direction prev)) (side head)
                         :: removelast (snake prev))
                  (food prev) (direction prev) (currentSide prev)
                  (score prev) (gameOver prev) (isPlaying prev)
                  (eatEffect prev)
                  (if wrapImmunity prev >? 0 then wrapImmunity prev - 1
                   else wrapImmunity prev),
          g).
Proof.
  unfold tick. rewrite Hsnake in *.
  rewrite (moveHead_normal i _ _ Hnext). cbn [coord side].
  rewrite Hfree.
  destruct (wrapImmunity prev >? 0); cbv beta iota; rewrite Hnofood;
    rewrite removelast_cons_cons; reflexivity.
Qed.

Lemma tick_plain_step_witness :
  tick Wrap1 gridPixel halfRng 1000
       (mkState initialSnake (mkSeg (mkHex 5 5) 1) RIGHT 0 20 false true None 1)
  = Some (mkState [ mkSeg (mkHex 1 0) 0; mkSeg (mkHex 0 0) 0;
                    mkSeg (mkHex (-1) 0) 0 ]
                  (mkSeg (mkHex 5 5) 1) RIGHT 0 20 false true None 0,
          halfRng).
Proof.
  apply (tick_plain_step Wrap1 Z gridPixel halfRng 1000
           (mkState initialSnake (mkSeg (mkHex 5 5) 1) RIGHT 0 20
                    false true None 1)
           (mkSeg (mkHex 0 0) 0)
           [ mkSeg (mkHex (-1) 0) 0; mkSeg (mkHex (-2) 0) 0 ]);
    reflexivity.
Defined.

(** X17: a wrap step.  When the next cell is off the board, the head is on
    a wrap exit and the portal target on the other face is on no segment,
    the tick puts the head on the portal target on the other face, shows
    that face, sets the heading to the reflected and inverted one and the
    wrap immunity to 1, and leaves the food on the board; unless the food
    is eaten, a food whose mirror is on the board moves to that mirror on
    the new face without any random draw. *)
Theorem tick_wrap_step (i : WrapIndex) (float : Type)
        (hexToPixel : Z -> Z -> float * float) (g : Rng) (now : Z)
        (prev : GameState float) (head : SnakeSegment)
        (rest : list SnakeSegment)
        (Hsnake : snake prev = head :: rest)
        (Hnext : isValidPosition (getNextPosition head (direction prev)) = false)
        (Hexit : isWrapExit i head = true)
        (Hfree : isOnSnake (portalTarget i head) (1 - side head)
                           (snake prev) = false) :
  exists s' g',
    tick i hexToPixel g now prev = Some (s', g') /\
    hd_error (snake s') = Some (mkSeg (portalTarget i head) (1 - side head)) /\
    currentSide s' = 1 - side head /\
    direction s' = wrapDirection i (direction prev) /\
    wrapImmunity s' = 1 /\
    gameOver s' = gameOver prev /\ isPlaying s' = isPlaying prev /\
    isValidPosition (food s') = true /\
    (isSameCoord (portalTarget i head) (food prev)
     && (1 - side head =? side (food prev)) = false ->
     isValidPosition (mirrorCoord i (food prev)) = true ->
     food s' = mkSeg (mirrorCoord i (food prev)) (1 - side head) /\ g' = g).
Proof.
  assert (Hmove : moveHead i head (direction prev)
                  = Some (mkSeg (portalTarget i head) (1 - side head),
                          1 - side head, true,
                          wrapDirection i (direction prev)))
    by (rewrite moveHead_cases, Hnext, Hexit; reflexivity).
  destruct (tick_nonfatal i float hexToPixel g now prev head rest
              _ _ _ _ Hsnake Hmove Hfree)
    as (s' & g' & Htick & Hs & Hf & Hg & Hd & Hc & _ & Hw & Hover & Hplay & _).
  exists s', g'. cbn [coord side andb] in *.
  split; [ exact Htick | ].
  split; [ rewrite Hs; destruct (_ && _); reflexivity | ].
  repeat (split; [ assumption | ]).
  split.
  - rewrite Hf. destruct (_ && _); [ apply generateFood_on_board | ].
    destruct (isValidPosition (mirrorCoord i (food prev))) eqn:Hm;
      [ exact Hm | apply generateFood_on_board ].
  - intros Hnoeat Hm. rewrite Hf, Hg, Hnoeat, Hm. cbn [negb].
    split; reflexivity.
Qed.

Lemma tick_wrap_step_witness :
  exists s' g',
    tick Wrap0 gridPixel halfRng 1000
         (sampleState [ mkSeg (mkHex 15 0) 0; mkSeg (mkHex 14 0) 0;
                        mkSeg (mkHex 13 0) 0 ]
                      (mkSeg (mkHex 3 3) 0) RIGHT)
    = Some (s', g') /\
    hd_error (snake s') = Some (mkSeg (mkHex (-15) 0) 1) /\
    currentSide s' = 1 /\
    direction s' = RIGHT /\
    wrapImmunity s' = 1 /\
    gameOver s' = false /\ isPlaying s' = true /\
    isValidPosition (food s') = true /\
    (false = false -> true = true ->
     food s' = mkSeg (mkHex (-3) 3) 1 /\ g' = halfRng).
Proof.
  apply (tick_wrap_step Wrap0 Z gridPixel halfRng 1000
           (sampleState [ mkSeg (mkHex 15 0) 0; mkSeg (mkHex 14 0) 0;
                          mkSeg (mkHex 13 0) 0 ]
                        (mkSeg (mkHex 3 3) 0) RIGHT)
           (mkSeg (mkHex 15 0) 0)
           [ mkSeg (mkHex 14 0) 0; mkSeg (mkHex 13 0) 0 ]);
    reflexivity.
Defined.

Lemma mirrorCoord_moves_exit (i : WrapIndex) (c : HexCoord) :
  isWrapExit i c = true -> isSameCoord (mirrorCoord i c) c = false.
Proof.
  intros Hexit. apply isWrapExit_iff in Hexit.
  destruct (isSameCoord (mirrorCoord i c) c) eqn:Hsame; [ | reflexivity ].
  apply isSameCoord_eq in Hsame. rewrite mirrorCoord_cases in Hsame.
  destruct c as [cq cr]. unfold GRID_RADIUS in Hexit.
  destruct i; inversion Hsame; cbn [q r] in *; lia.
Qed.

(** X18: the eating test of a wrap tick looks at the food where it was
    before the wrap.  When the food lies on the head's cell on the other
    face and the head wraps to its mirror, the food is carried to that same
    mirror: after the tick the food is under the new head, it has not been
    eaten and the score is unchanged. *)
Theorem wrap_carries_food_under_head (i : WrapIndex) (float : Type)
        (hexToPixel : Z -> Z -> float * float) (g : Rng) (now : Z)
        (prev : GameState float) (head : SnakeSegment)
        (rest : list SnakeSegment)
        (Hsnake : snake prev = head :: rest)
        (Hnext : isValidPosition (getNextPosition head (direction prev)) = false)
        (Hexit : isWrapExit i head = true)
        (Hmirror : isValidPosition (mirrorCoord i head) = true)
        (Hfree : isOnSnake (mirrorCoord i head) (1 - side head)
                           (snake prev) = false)
        (Hfood : food prev = mkSeg (coord head) (1 - side head)) :
  exists s',
    tick i hexToPixel g now prev = Some (s', g) /\
    hd_error (snake s') = Some (food s') /\
    food s' = mkSeg (mirrorCoord i head) (1 - side head) /\
    isOnSnake (food s') (side (food s')) (snake s') = true /\
    score s' = score prev /\
    List.length (snake s') = List.length (snake prev).
Proof.
  assert (Htarget : portalTarget i head = mirrorCoord i head)
    by (unfold portalTarget; apply adjustToCenter_valid; exact Hmirror).
  assert (Hmove : moveHead i head (direction prev)
                  = Some (mkSeg (mirrorCoord i head) (1 - side head),
                          1 - side head, true,
                          wrapDirection i (direction prev)))
    by (rewrite moveHead_cases, Hnext, Hexit, Htarget; reflexivity).
  destruct (tick_nonfatal i float hexToPixel g now prev head rest
              _ _ _ _ Hsnake Hmove Hfree)
    as (s' & g' & Htick & Hs & Hf & Hg & _ & _ & Hsc & _).
  cbn [coord side andb] in *.
  rewrite Hfood in Hs, Hf, Hg, Hsc. cbn [coord side] in *.
  rewrite (mirrorCoord_moves_exit i head Hexit) in Hs, Hf, Hg, Hsc.
  rewrite Hmirror in Hf, Hg. cbn [andb negb] in *. subst g'.
  exists s'. split; [ exact Htick | ].
  rewrite Hs, Hf, Hsc. cbn [hd_error side coord].
  repeat split.
  - apply isOnSnake_true_iff. left. reflexivity.
  - cbn [List.length]. rewrite Hsnake.
    rewrite removelast_length_nonempty by discriminate. reflexivity.
Qed.

Lemma wrap_carries_food_under_head_witness :
  exists s',
    tick Wrap0 gridPixel halfRng 1000
         (sampleState [ mkSeg (mkHex 15 0) 0; mkSeg (mkHex 14 0) 0;
                        mkSeg (mkHex 13 0) 0 ]
                      (mkSeg (mkHex 15 0) 1) RIGHT)
    = Some (s', halfRng) /\
    hd_error (snake s') = Some (food s') /\
    food s' = mkSeg (mkHex (-15) 0) 1 /\
    isOnSnake (food s') (side (food s')) (snake s') = true /\
    score s' = 0 /\
    List.length (snake s') = 3%nat.
Proof.
  apply (wrap_carries_food_under_head Wrap0 Z gridPixel halfRng 1000
           (sampleState [ mkSeg (mkHex 15 0) 0; mkSeg (mkHex 14 0) 0;
                          mkSeg (mkHex 13 0) 0 ]
                        (mkSeg (mkHex 15 0) 1) RIGHT)
           (mkSeg (mkHex 15 0) 0)
           [ mkSeg (mkHex 14 0) 0; mkSeg (mkHex 13 0) 0 ]);
    reflexivity.
Defined.

(** X19: an eating tick on a snake of fewer than 720 segments places the
    new food on the board, on face 0 or 1, and off the grown snake,
    whatever the random draws; it records the eat effect at the head's
    pixel with the clock's value. *)
Theorem tick_eating_places_food (i : WrapIndex) (float : Type)
        (hexToPixel : Z -> Z -> float * float) (g : Rng) (now : Z)
        (prev : GameState float) (head : SnakeSegment)
        (rest : list SnakeSegment)
        (newHead : SnakeSegment) (newSide : Z) (flipped : bool)
        (newDirection : Direction)
        (Hsnake : snake prev = head :: rest)
        (Hmove : moveHead i head (direction prev)
                 = Some (newHead, newSide, flipped, newDirection))
        (Hfree : isOnSnake newHead newSide (snake prev) = false)
        (Heats : isSameCoord newHead (food prev)
                 && (side newHead =? side (food prev)) = true)
        (Hshort : (List.length (snake prev) < 720)%nat) :
  exists s' g',
    tick i hexToPixel g now prev = Some (s', g') /\
    snake s' = newHead :: snake prev /\
    isValidPosition (food s') = true /\
    (side (food s') = 0 \/ side (food s') = 1) /\
    isOnSnake (food s') (side (food s')) (snake s') = false /\
    eatEffect s'
    = Some (mkEffect (fst (hexToPixel (q newHead) (r newHead)))
                     (snd (hexToPixel (q newHead) (r newHead)))
                     true now).
Proof.
  destruct (tick_nonfatal i float hexToPixel g now prev head rest
              _ _ _ _ Hsnake Hmove Hfree)
    as (s' & g' & Htick & Hs & Hf & _ & _ & _ & _ & _ & _ & _ & He).
  rewrite Heats in Hs, Hf, He.
  exists s', g'. split; [ exact Htick | ].
  split; [ exact Hs | ].
  rewrite Hs, Hf, He.
  match goal with
  | |- context [ generateFood ?body None ?g1 ] =>
    destruct (generateFood_free_position body None g1)
      as (Hv & Hon & Hside & _)
  end.
  { cbn [List.length]. lia. }
  cbn [sidesToCheck In] in Hside.
  repeat split; try assumption. lia.
Qed.

Lemma tick_eating_places_food_witness :
  exists s' g',
    tick Wrap2 gridPixel halfRng 1000
         (sampleState initialSnake (mkSeg (mkHex 1 0) 0) RIGHT)
    = Some (s', g') /\
    snake s' = mkSeg (mkHex 1 0) 0 :: initialSnake /\
    isValidPosition (food s') = true /\
    (side (food s') = 0 \/ side (food s') = 1) /\
    isOnSnake (food s') (side (food s')) (snake s') = false /\
    eatEffect s' = Some (mkEffect 15 9 true 1000).
Proof.
  apply (tick_eating_places_food Wrap2 Z gridPixel halfRng 1000
           (sampleState initialSnake (mkSeg (mkHex 1 0) 0) RIGHT)
           (mkSeg (mkHex 0 0) 0)
           [ mkSeg (mkHex (-1) 0) 0; mkSeg (mkHex (-2) 0) 0 ]
           (mkSeg (mkHex 1 0) 0) 0 false RIGHT);
    try reflexivity.
  cbn. lia.
Defined.

(** X20: [startGame] (and [restartGame], the same code) gives a running
    state with the three-segment snake on face 0 heading RIGHT, score 0,
    no eat effect and no wrap immunity; its food is on the board, on face 0
    or 1 and not on the snake, whatever the random draw, and one random
    number is drawn.  The state the component is created with differs only
    in not being started. *)
Theorem startGame_state (float : Type) (g : Rng) :
  let s := fst (@startGame float g) in
  snake s = [ mkSeg (mkHex 0 0) 0; mkSeg (mkHex (-1) 0) 0;
              mkSeg (mkHex (-2) 0) 0 ] /\
  direction s = RIGHT /\ currentSide s = 0 /\ score s = 0 /\
  gameOver s = false /\ isPlaying s = true /\
  eatEffect s = None /\ wrapImmunity s = 0 /\
  isValidPosition (food s) = true /\
  (side (food s) = 0 \/ side (food s) = 1) /\
  isOnSnake (food s) (side (food s)) (snake s) = false /\
  snd (@startGame float g) = snd (Math_random g) /\
  @initialGameState float g
  = (mkState (snake s) (food s) (direction s) (currentSide s) (score s)
             (gameOver s) false (eatEffect s) (wrapImmunity s),
     snd (@startGame float g)).
Proof.
  intros s. subst s. unfold startGame, initialGameState.
  assert (Hshort : (List.length initialSnake < 721)%nat)
    by (unfold initialSnake; cbn [List.length]; lia).
  destruct (generateFood_free_position initialSnake None g Hshort)
    as (Hv & Hon & Hside & Hrng).
  destruct (generateFood initialSnake None g) as [f g'].
  cbn [fst snd snake food direction currentSide score gameOver isPlaying
           eatEffect wrapImmunity] in *.
  cbn [sidesToCheck In] in Hside.
  repeat split; try assumption; try reflexivity. lia.
Qed.
